(** * CPER (Common Platform Error Record) support: drivers/firmware/efi/cper.c

    A shallow embedding of the record-id generator, the status-block
    validators and the section printer of cper.c, with the properties the
    specification states about them.

    Conventions.
    - C integers are [Z] with the wrap-around written out.  The data model is
      LP64: [unsigned int] and [u32] have 32 bits, [size_t] and [u64] have 64.
      The one test whose result depends on the width of [size_t], the second
      test of cper_estatus_check_header, is also given for a [size_t] of any
      width ([cper_estatus_check_header_on]).
    - A status block is read through a pointer; the block is modelled by its
      header and by typed views of the bytes that follow it ([gdata_at] and the
      three payload views), indexed by the byte offset from the end of the
      header, i.e. from [(estatus + 1)].
    - [printk] and its wrappers are an effect: every printing function returns
      the list of the calls it makes, each call with its log level, its format
      string and its arguments.
    - Declarations of include/linux/cper.h and include/acpi/actbl1.h (struct
      sizes, validation masks, section type GUIDs) and the helpers of other
      files are collected in the class [cper_h]. *)

From Stdlib Require Import ZArith List String Ascii Bool Lia.
Import ListNotations.
Open Scope string_scope.
Open Scope Z_scope.

(** ** C integer arithmetic *)

Definition to_uint (z : Z) : Z := z mod 2 ^ 32.
Definition to_size_t (z : Z) : Z := z mod 2 ^ 64.
Definition to_u64 (z : Z) : Z := z mod 2 ^ 64.
Definition to_u16 (z : Z) : Z := z mod 2 ^ 16.

Definition u32_range (z : Z) : Prop := 0 <= z < 2 ^ 32.

Definition EINVAL : Z := 22.

(** ** Structures of the generic error status block *)

(** struct acpi_generic_status *)
Record acpi_generic_status := {
  block_status : Z;
  raw_data_offset : Z;
  raw_data_length : Z;
  data_length : Z;
  gs_error_severity : Z
}.

Definition uuid_le := list Z.

(** struct acpi_generic_data *)
Record acpi_generic_data := {
  section_type : uuid_le;
  error_severity : Z;
  revision : Z;
  gd_validation_bits : Z;
  gd_flags : Z;
  error_data_length : Z;
  fru_id : uuid_le;
  fru_text : string
}.

(** ** Section payloads (include/linux/cper.h)

    Only the members cper.c reads are kept; reserved members and the raw
    capability bytes are left out. *)

(** struct cper_sec_proc_generic *)
Record cper_sec_proc_generic := {
  proc_validation_bits : Z;
  proc_type : Z;
  proc_isa : Z;
  proc_error_type : Z;
  operation : Z;
  flags : Z;
  level : Z;
  cpu_version : Z;
  proc_id : Z;
  target_addr : Z;
  proc_requestor_id : Z;
  proc_responder_id : Z;
  ip : Z
}.

(** struct cper_sec_mem_err *)
Record cper_sec_mem_err := {
  mem_validation_bits : Z;
  error_status : Z;
  physical_addr : Z;
  physical_addr_mask : Z;
  node : Z;
  card : Z;
  module : Z;
  bank : Z;
  device : Z;
  row : Z;
  column : Z;
  bit_pos : Z;
  requestor_id : Z;
  responder_id : Z;
  target_id : Z;
  error_type : Z;
  rank : Z;
  mem_dev_handle : Z
}.

(** The anonymous members of struct cper_sec_pcie. *)
Record cper_pcie_version := { minor : Z; major : Z }.

Record cper_pcie_device_id := {
  vendor_id : Z;
  devid_device_id : Z;
  class_code : list Z;
  function : Z;
  devid_device : Z;
  segment : Z;
  bus : Z;
  secondary_bus : Z;
  slot : Z
}.

Record cper_pcie_serial_number := { lower : Z; upper : Z }.

Record cper_pcie_bridge := { secondary_status : Z; control : Z }.

(** struct aer_header_log_regs and the members of struct aer_capability_regs
    (include/linux/aer.h) that are printed. *)
Record aer_header_log_regs := { dw0 : Z; dw1 : Z; dw2 : Z; dw3 : Z }.

Record aer_capability_regs := {
  uncor_status : Z;
  uncor_mask : Z;
  uncor_severity : Z;
  header_log : aer_header_log_regs
}.

(** struct cper_sec_pcie; [aer_info] is the view of its 96 bytes that the cast
    to [struct aer_capability_regs *] gives. *)
Record cper_sec_pcie := {
  pcie_validation_bits : Z;
  port_type : Z;
  version : cper_pcie_version;
  command : Z;
  status : Z;
  device_id : cper_pcie_device_id;
  serial_number : cper_pcie_serial_number;
  bridge : cper_pcie_bridge;
  aer_info : aer_capability_regs
}.

(** ** What cper.c takes from files that are not part of these sources

    Struct sizes and macros of include/linux/cper.h and include/acpi/actbl1.h,
    and dmi_memdev_name of drivers/firmware/dmi_scan.c, which leaves its two
    result pointers NULL ([None]) when it knows no name for the handle. *)
Class cper_h := {
  sizeof_acpi_generic_status : Z;
  sizeof_acpi_generic_data : Z;
  sizeof_cper_sec_proc_generic : Z;
  sizeof_cper_sec_mem_err : Z;
  sizeof_cper_sec_pcie : Z;
  sizeof_acpi_generic_status_pos : 0 < sizeof_acpi_generic_status < 2 ^ 32;
  sizeof_acpi_generic_data_pos : 0 < sizeof_acpi_generic_data < 2 ^ 32;

  CPER_SEC_VALID_FRU_ID : Z;
  CPER_SEC_VALID_FRU_TEXT : Z;

  CPER_SEC_PROC_GENERIC : uuid_le;
  CPER_SEC_PLATFORM_MEM : uuid_le;
  CPER_SEC_PCIE : uuid_le;

  CPER_PROC_VALID_TYPE : Z;
  CPER_PROC_VALID_ISA : Z;
  CPER_PROC_VALID_ERROR_TYPE : Z;
  CPER_PROC_VALID_OPERATION : Z;
  CPER_PROC_VALID_FLAGS : Z;
  CPER_PROC_VALID_LEVEL : Z;
  CPER_PROC_VALID_VERSION : Z;
  CPER_PROC_VALID_ID : Z;
  CPER_PROC_VALID_TARGET_ADDRESS : Z;
  CPER_PROC_VALID_REQUESTOR_ID : Z;
  CPER_PROC_VALID_RESPONDER_ID : Z;
  CPER_PROC_VALID_IP : Z;

  CPER_MEM_VALID_ERROR_STATUS : Z;
  CPER_MEM_VALID_PA : Z;
  CPER_MEM_VALID_PA_MASK : Z;
  CPER_MEM_VALID_NODE : Z;
  CPER_MEM_VALID_CARD : Z;
  CPER_MEM_VALID_MODULE : Z;
  CPER_MEM_VALID_RANK_NUMBER : Z;
  CPER_MEM_VALID_BANK : Z;
  CPER_MEM_VALID_DEVICE : Z;
  CPER_MEM_VALID_ROW : Z;
  CPER_MEM_VALID_COLUMN : Z;
  CPER_MEM_VALID_BIT_POSITION : Z;
  CPER_MEM_VALID_REQUESTOR_ID : Z;
  CPER_MEM_VALID_RESPONDER_ID : Z;
  CPER_MEM_VALID_TARGET_ID : Z;
  CPER_MEM_VALID_ERROR_TYPE : Z;
  CPER_MEM_VALID_MODULE_HANDLE : Z;

  CPER_PCIE_VALID_PORT_TYPE : Z;
  CPER_PCIE_VALID_VERSION : Z;
  CPER_PCIE_VALID_COMMAND_STATUS : Z;
  CPER_PCIE_VALID_DEVICE_ID : Z;
  CPER_PCIE_VALID_SERIAL_NUMBER : Z;
  CPER_PCIE_VALID_BRIDGE_CONTROL_STATUS : Z;
  CPER_PCIE_VALID_AER_INFO : Z;
  CPER_PCIE_SLOT_SHIFT : Z;

  dmi_memdev_name : Z -> option string * option string
}.

Definition CPER_SEV_FATAL : Z := 1.
Definition CPER_SEV_CORRECTED : Z := 2.
Definition CPER_SEV_INFORMATIONAL : Z := 3.

(** The bytes behind an [estatus] pointer: the header, and for every byte
    offset past the header the descriptor and the payloads read there. *)
Record cper_blob := {
  estatus : acpi_generic_status;
  gdata_at : Z -> acpi_generic_data;
  proc_generic_at : Z -> cper_sec_proc_generic;
  mem_err_at : Z -> cper_sec_mem_err;
  pcie_at : Z -> cper_sec_pcie
}.

Definition wf_status (e : acpi_generic_status) : Prop :=
  u32_range (raw_data_offset e) /\ u32_range (raw_data_length e) /\
  u32_range (data_length e).

Definition wf_blob (b : cper_blob) : Prop :=
  wf_status (estatus b) /\
  forall off, u32_range (error_data_length (gdata_at b off)).

(** ** printk *)

Inductive loglevel := KERN_DEFAULT | KERN_ERR | KERN_DEBUG.

Inductive printk_arg :=
| AStr (s : string)
| AInt (z : Z)
| AUuid (u : uuid_le).

(** One call of printk: the level, the format and the arguments. *)
Record printk_call := {
  lvl : loglevel;
  fmt : string;
  args : list printk_arg
}.

Definition printk (f : string) (a : list printk_arg) : list printk_call :=
  [ {| lvl := KERN_DEFAULT; fmt := f; args := a |} ].
Definition pr_debug (f : string) (a : list printk_arg) : list printk_call :=
  [ {| lvl := KERN_DEBUG; fmt := f; args := a |} ].
Definition pr_err (f : string) (a : list printk_arg) : list printk_call :=
  [ {| lvl := KERN_ERR; fmt := f; args := a |} ].

Definition LF : string := String (ascii_of_nat 10) EmptyString.
Definition FW_WARN : string := "[Firmware Warn]: ".
Definition INDENT_SP : string := " ".

Definition strlen (s : string) : Z := Z.of_nat (String.length s).

(** snprintf(buf, size, ...) for an output that expands to [s] and a [size]
    of at least 1: the text left in the buffer (at most [size - 1] characters
    before the terminating NUL) and the value returned (the length of [s],
    cut or not).  The calls of this file pass 64, 84 or, when appending to a
    line of at most 78 characters, [84 - len]. *)
Definition snprintf (size : Z) (s : string) : string * Z :=
  (substring 0 (Z.to_nat (size - 1)) s, strlen s).

Definition ARRAY_SIZE {A} (l : list A) : Z := Z.of_nat (List.length l).

(** [v & mask] used as a condition. *)
Definition bits_set (v mask : Z) : bool := negb (Z.land v mask =? 0).

(** [i < ARRAY_SIZE(strs) ? strs[i] : "unknown"] *)
Definition str_or_unknown (strs : list string) (i : Z) : string :=
  if i <? ARRAY_SIZE strs then nth (Z.to_nat i) strs "unknown" else "unknown".

(** memcmp over the 16 bytes of two GUIDs, as uuid_le_cmp does. *)
Fixpoint uuid_le_cmp (u1 u2 : uuid_le) : Z :=
  match u1, u2 with
  | x :: u1', y :: u2' => if x =? y then uuid_le_cmp u1' u2' else x - y
  | [], [] => 0
  | [], _ :: _ => -1
  | _ :: _, [] => 1
  end.

(** * Validation *)

Section Check.
Context {H : cper_h}.

(** ** cper_estatus_check_header *)

Definition cper_estatus_check_header (e : acpi_generic_status) : Z :=
  if negb (data_length e =? 0) &&
     (data_length e <? sizeof_acpi_generic_data)
  then - EINVAL
  else if negb (raw_data_length e =? 0) &&
          (raw_data_offset e <?
             to_size_t (sizeof_acpi_generic_status + data_length e))
  then - EINVAL
  else 0.


(** ** cper_estatus_check *)

Inductive walk_step :=
| WalkFail (rc : Z)
| WalkNext (data_len off : Z).

(** One turn of the [while] loop of cper_estatus_check, entered with
    [data_len >= sizeof( *gdata)]. *)
Definition check_step (b : cper_blob) (data_len off : Z) : walk_step :=
  let gedata_len := to_uint (error_data_length (gdata_at b off)) in
  if to_size_t (data_len - sizeof_acpi_generic_data) <? gedata_len
  then WalkFail (- EINVAL)
  else WalkNext
         (to_uint (data_len - to_size_t (gedata_len + sizeof_acpi_generic_data)))
         (off + sizeof_acpi_generic_data + gedata_len).

(** The code after the loop. *)
Definition check_tail (data_len : Z) : Z :=
  if negb (data_len =? 0) then - EINVAL else 0.

Fixpoint check_sections (fuel : nat) (b : cper_blob) (data_len off : Z)
  : option Z :=
  if sizeof_acpi_generic_data <=? data_len then
    match fuel with
    | O => None
    | S fuel' =>
        match check_step b data_len off with
        | WalkFail rc => Some rc
        | WalkNext data_len' off' => check_sections fuel' b data_len' off'
        end
    end
  else Some (check_tail data_len).

Definition cper_estatus_check (fuel : nat) (b : cper_blob) : option Z :=
  let rc := cper_estatus_check_header (estatus b) in
  if negb (rc =? 0) then Some rc
  else check_sections fuel b (to_uint (data_length (estatus b))) 0.

(** ** The walk in the words of the specification

    [advance b n off rem] consumes [n] descriptors, each taking
    [sizeof(GenericErrorData)] plus its [error_data_length] out of the [rem]
    bytes that remain, and gives the position and remaining count reached, or
    [None] when one of them does not fit. *)
Fixpoint advance (b : cper_blob) (n : nat) (off rem : Z) : option (Z * Z) :=
  match n with
  | O => Some (off, rem)
  | S n' =>
      let l := error_data_length (gdata_at b off) in
      if sizeof_acpi_generic_data + l <=? rem
      then advance b n' (off + sizeof_acpi_generic_data + l)
                        (rem - (sizeof_acpi_generic_data + l))
      else None
  end.

Definition exhausts (b : cper_blob) : Prop :=
  exists n off, advance b n 0 (data_length (estatus b)) = Some (off, 0).

End Check.


(** * Printing *)

(** ** cper_severity_str *)

Definition cper_severity_strs : list string :=
  ["recoverable"; "fatal"; "corrected"; "info"].

Definition cper_severity_str (severity : Z) : string :=
  str_or_unknown cper_severity_strs severity.

(** ** cper_print_bits

    The array [strs] and its size [strs_size] are one list; a NULL entry is
    [None].  The locals of the function are the state of its loop. *)

Record bits_state := {
  buf : string;
  len : Z;
  printed : list printk_call
}.

(** [1U << i]; C defines it for [i < 32] only. *)
Definition bit_1U (i : nat) : Z := to_uint (Z.shiftl 1 (Z.of_nat i)).

(** The body of the [for] loop at index [i], with [strs[i]] in [entry]. *)
Definition cper_print_bits_step (pfx : string) (bits : Z)
    (st : bits_state) (i : nat) (entry : option string) : bits_state :=
  if Z.land bits (bit_1U i) =? 0 then st
  else match entry with
  | None => st
  | Some str =>
      let st1 :=
        if negb (len st =? 0) && (80 <? len st + strlen str + 2)
        then {| buf := buf st; len := 0;
                printed := printed st ++ printk ("%s" ++ LF) [AStr (buf st)] |}
        else st in
      if len st1 =? 0 then
        let '(text, n) := snprintf 84 (pfx ++ str) in
        {| buf := text; len := n; printed := printed st1 |}
      else
        let '(text, n) := snprintf (84 - len st1) (", " ++ str) in
        {| buf := substring 0 (Z.to_nat (len st1)) (buf st1) ++ text;
           len := len st1 + n; printed := printed st1 |}
  end.

Fixpoint cper_print_bits_loop (pfx : string) (bits : Z) (i : nat)
    (strs : list (option string)) (st : bits_state) : bits_state :=
  match strs with
  | [] => st
  | entry :: strs' =>
      cper_print_bits_loop pfx bits (S i) strs'
        (cper_print_bits_step pfx bits st i entry)
  end.

Definition cper_print_bits (pfx : string) (bits : Z)
    (strs : list (option string)) : list printk_call :=
  let st := cper_print_bits_loop pfx bits 0 strs
              {| buf := EmptyString; len := 0; printed := [] |} in
  printed st ++
  (if negb (len st =? 0) then printk ("%s" ++ LF) [AStr (buf st)] else []).

(** *** The formatter in the words of the specification

    [selected_names] lists, by ascending bit position from [i], the names of
    the set bits that have an entry; [wrap_lines] joins them by a comma and a
    blank on lines that start with the prefix, ending the current line when
    the next name would make it longer than 80 columns. *)

Fixpoint selected_names (bits : Z) (i : nat) (names : list (option string))
  : list string :=
  match names with
  | [] => []
  | entry :: rest =>
      match entry with
      | Some name =>
          if Z.testbit bits (Z.of_nat i)
          then name :: selected_names bits (S i) rest
          else selected_names bits (S i) rest
      | None => selected_names bits (S i) rest
      end
  end.

Fixpoint wrap_lines (prefix : string) (cur : option string)
    (names : list string) : list string :=
  match names with
  | [] => match cur with Some line => [line] | None => [] end
  | name :: rest =>
      match cur with
      | None => wrap_lines prefix (Some (prefix ++ name)) rest
      | Some line =>
          if 80 <? strlen line + strlen (", " ++ name)
          then line :: wrap_lines prefix (Some (prefix ++ name)) rest
          else wrap_lines prefix (Some (line ++ ", " ++ name)) rest
      end
  end.

Definition format_bits (prefix : string) (bits : Z)
    (names : list (option string)) : list string :=
  wrap_lines prefix None (selected_names bits 0 names).

(** A finished line goes to printk, followed by a newline. *)
Definition line_call (line : string) : list printk_call :=
  printk ("%s" ++ LF) [AStr line].

(** A call that hands one line buffer to the format of cper_print_bits. *)
Definition bits_line (c : printk_call) : Prop :=
  exists line, c = {| lvl := KERN_DEFAULT; fmt := "%s" ++ LF;
                      args := [AStr line] |}.


(** ** String tables *)

Definition cper_proc_type_strs : list string := ["IA32/X64"; "IA64"].

Definition cper_proc_isa_strs : list string := ["IA32"; "IA64"; "X64"].

Definition cper_proc_error_type_strs : list string :=
  ["cache error"; "TLB error"; "bus error"; "micro-architectural error"].

Definition cper_proc_op_strs : list string :=
  ["unknown or generic"; "data read"; "data write"; "instruction execution"].

Definition cper_proc_flag_strs : list string :=
  ["restartable"; "precise IP"; "overflow"; "corrected"].

Definition cper_mem_err_type_strs : list string :=
  ["unknown"; "no error"; "single-bit ECC"; "multi-bit ECC";
   "single-symbol chipkill ECC"; "multi-symbol chipkill ECC";
   "master abort"; "target abort"; "parity error"; "watchdog timeout";
   "invalid address"; "mirror Broken"; "memory sparing";
   "scrub corrected error"; "scrub uncorrected error";
   "physical memory map-out event"].

Definition cper_pcie_port_type_strs : list string :=
  ["PCIe end point"; "legacy PCI end point"; "unknown"; "unknown";
   "root port"; "upstream switch port"; "downstream switch port";
   "PCIe to PCI/PCI-X bridge"; "PCI/PCI-X to PCIe bridge";
   "root complex integrated endpoint device";
   "root complex event collector"].

Section Print.
Context {H : cper_h}.

(** [if (c) stmt] for a statement that only prints. *)
Definition when (c : bool) (out : list printk_call) : list printk_call :=
  if c then out else [].

(** ** cper_print_proc_generic

    The function is a sequence of guarded statements, one for each optional
    member; [proc_stmt] gives the statement of a member. *)

Inductive proc_field :=
| PROC_type | PROC_isa | PROC_error_type | PROC_operation | PROC_flags
| PROC_level | PROC_version | PROC_id | PROC_target_address
| PROC_requestor_id | PROC_responder_id | PROC_ip.

Definition proc_stmt (pfx : string) (proc : cper_sec_proc_generic)
    (f : proc_field) : list printk_call :=
  let v := proc_validation_bits proc in
  match f with
  | PROC_type =>
      when (bits_set v CPER_PROC_VALID_TYPE)
        (printk ("%sprocessor_type: %d, %s" ++ LF)
           [AStr pfx; AInt (proc_type proc);
            AStr (str_or_unknown cper_proc_type_strs (proc_type proc))])
  | PROC_isa =>
      when (bits_set v CPER_PROC_VALID_ISA)
        (printk ("%sprocessor_isa: %d, %s" ++ LF)
           [AStr pfx; AInt (proc_isa proc);
            AStr (str_or_unknown cper_proc_isa_strs (proc_isa proc))])
  | PROC_error_type =>
      when (bits_set v CPER_PROC_VALID_ERROR_TYPE)
        (printk ("%serror_type: 0x%02x" ++ LF)
           [AStr pfx; AInt (proc_error_type proc)] ++
         cper_print_bits pfx (proc_error_type proc)
           (map Some cper_proc_error_type_strs))
  | PROC_operation =>
      when (bits_set v CPER_PROC_VALID_OPERATION)
        (printk ("%soperation: %d, %s" ++ LF)
           [AStr pfx; AInt (operation proc);
            AStr (str_or_unknown cper_proc_op_strs (operation proc))])
  | PROC_flags =>
      when (bits_set v CPER_PROC_VALID_FLAGS)
        (printk ("%sflags: 0x%02x" ++ LF) [AStr pfx; AInt (flags proc)] ++
         cper_print_bits pfx (flags proc) (map Some cper_proc_flag_strs))
  | PROC_level =>
      when (bits_set v CPER_PROC_VALID_LEVEL)
        (printk ("%slevel: %d" ++ LF) [AStr pfx; AInt (level proc)])
  | PROC_version =>
      when (bits_set v CPER_PROC_VALID_VERSION)
        (printk ("%sversion_info: 0x%016llx" ++ LF)
           [AStr pfx; AInt (cpu_version proc)])
  | PROC_id =>
      when (bits_set v CPER_PROC_VALID_ID)
        (printk ("%sprocessor_id: 0x%016llx" ++ LF)
           [AStr pfx; AInt (proc_id proc)])
  | PROC_target_address =>
      when (bits_set v CPER_PROC_VALID_TARGET_ADDRESS)
        (printk ("%starget_address: 0x%016llx" ++ LF)
           [AStr pfx; AInt (target_addr proc)])
  | PROC_requestor_id =>
      when (bits_set v CPER_PROC_VALID_REQUESTOR_ID)
        (printk ("%srequestor_id: 0x%016llx" ++ LF)
           [AStr pfx; AInt (proc_requestor_id proc)])
  | PROC_responder_id =>
      when (bits_set v CPER_PROC_VALID_RESPONDER_ID)
        (printk ("%sresponder_id: 0x%016llx" ++ LF)
           [AStr pfx; AInt (proc_responder_id proc)])
  | PROC_ip =>
      when (bits_set v CPER_PROC_VALID_IP)
        (printk ("%sIP: 0x%016llx" ++ LF) [AStr pfx; AInt (ip proc)])
  end.

Definition cper_print_proc_generic (pfx : string)
    (proc : cper_sec_proc_generic) : list printk_call :=
  proc_stmt pfx proc PROC_type ++
  proc_stmt pfx proc PROC_isa ++
  proc_stmt pfx proc PROC_error_type ++
  proc_stmt pfx proc PROC_operation ++
  proc_stmt pfx proc PROC_flags ++
  proc_stmt pfx proc PROC_level ++
  proc_stmt pfx proc PROC_version ++
  proc_stmt pfx proc PROC_id ++
  proc_stmt pfx proc PROC_target_address ++
  proc_stmt pfx proc PROC_requestor_id ++
  proc_stmt pfx proc PROC_responder_id ++
  proc_stmt pfx proc PROC_ip.

(** The validation bit and the member behind each statement. *)
Definition proc_field_mask (f : proc_field) : Z :=
  match f with
  | PROC_type => CPER_PROC_VALID_TYPE
  | PROC_isa => CPER_PROC_VALID_ISA
  | PROC_error_type => CPER_PROC_VALID_ERROR_TYPE
  | PROC_operation => CPER_PROC_VALID_OPERATION
  | PROC_flags => CPER_PROC_VALID_FLAGS
  | PROC_level => CPER_PROC_VALID_LEVEL
  | PROC_version => CPER_PROC_VALID_VERSION
  | PROC_id => CPER_PROC_VALID_ID
  | PROC_target_address => CPER_PROC_VALID_TARGET_ADDRESS
  | PROC_requestor_id => CPER_PROC_VALID_REQUESTOR_ID
  | PROC_responder_id => CPER_PROC_VALID_RESPONDER_ID
  | PROC_ip => CPER_PROC_VALID_IP
  end.

Definition proc_field_value (f : proc_field) (proc : cper_sec_proc_generic)
  : Z :=
  match f with
  | PROC_type => proc_type proc
  | PROC_isa => proc_isa proc
  | PROC_error_type => proc_error_type proc
  | PROC_operation => operation proc
  | PROC_flags => flags proc
  | PROC_level => level proc
  | PROC_version => cpu_version proc
  | PROC_id => proc_id proc
  | PROC_target_address => target_addr proc
  | PROC_requestor_id => proc_requestor_id proc
  | PROC_responder_id => proc_responder_id proc
  | PROC_ip => ip proc
  end.

(** ** cper_print_mem *)

Inductive mem_field :=
| MEM_error_status | MEM_pa | MEM_pa_mask | MEM_node | MEM_card | MEM_module
| MEM_rank_number | MEM_bank | MEM_device | MEM_row | MEM_column
| MEM_bit_position | MEM_requestor_id | MEM_responder_id | MEM_target_id
| MEM_error_type | MEM_module_handle.

Definition mem_stmt (pfx : string) (mem : cper_sec_mem_err) (f : mem_field)
  : list printk_call :=
  let v := mem_validation_bits mem in
  match f with
  | MEM_error_status =>
      when (bits_set v CPER_MEM_VALID_ERROR_STATUS)
        (printk ("%serror_status: 0x%016llx" ++ LF)
           [AStr pfx; AInt (error_status mem)])
  | MEM_pa =>
      when (bits_set v CPER_MEM_VALID_PA)
        (printk ("%sphysical_address: 0x%016llx" ++ LF)
           [AStr pfx; AInt (physical_addr mem)])
  | MEM_pa_mask =>
      when (bits_set v CPER_MEM_VALID_PA_MASK)
        (printk ("%sphysical_address_mask: 0x%016llx" ++ LF)
           [AStr pfx; AInt (physical_addr_mask mem)])
  | MEM_node =>
      when (bits_set v CPER_MEM_VALID_NODE)
        (pr_debug ("node: %d" ++ LF) [AInt (node mem)])
  | MEM_card =>
      when (bits_set v CPER_MEM_VALID_CARD)
        (pr_debug ("card: %d" ++ LF) [AInt (card mem)])
  | MEM_module =>
      when (bits_set v CPER_MEM_VALID_MODULE)
        (pr_debug ("module: %d" ++ LF) [AInt (module mem)])
  | MEM_rank_number =>
      when (bits_set v CPER_MEM_VALID_RANK_NUMBER)
        (pr_debug ("rank: %d" ++ LF) [AInt (rank mem)])
  | MEM_bank =>
      when (bits_set v CPER_MEM_VALID_BANK)
        (pr_debug ("bank: %d" ++ LF) [AInt (bank mem)])
  | MEM_device =>
      when (bits_set v CPER_MEM_VALID_DEVICE)
        (pr_debug ("device: %d" ++ LF) [AInt (device mem)])
  | MEM_row =>
      when (bits_set v CPER_MEM_VALID_ROW)
        (pr_debug ("row: %d" ++ LF) [AInt (row mem)])
  | MEM_column =>
      when (bits_set v CPER_MEM_VALID_COLUMN)
        (pr_debug ("column: %d" ++ LF) [AInt (column mem)])
  | MEM_bit_position =>
      when (bits_set v CPER_MEM_VALID_BIT_POSITION)
        (pr_debug ("bit_position: %d" ++ LF) [AInt (bit_pos mem)])
  | MEM_requestor_id =>
      when (bits_set v CPER_MEM_VALID_REQUESTOR_ID)
        (pr_debug ("requestor_id: 0x%016llx" ++ LF)
           [AInt (requestor_id mem)])
  | MEM_responder_id =>
      when (bits_set v CPER_MEM_VALID_RESPONDER_ID)
        (pr_debug ("responder_id: 0x%016llx" ++ LF)
           [AInt (responder_id mem)])
  | MEM_target_id =>
      when (bits_set v CPER_MEM_VALID_TARGET_ID)
        (pr_debug ("target_id: 0x%016llx" ++ LF) [AInt (target_id mem)])
  | MEM_error_type =>
      when (bits_set v CPER_MEM_VALID_ERROR_TYPE)
        (let etype := error_type mem in
         printk ("%serror_type: %d, %s" ++ LF)
           [AStr pfx; AInt etype;
            AStr (str_or_unknown cper_mem_err_type_strs etype)])
  | MEM_module_handle =>
      when (bits_set v CPER_MEM_VALID_MODULE_HANDLE)
        (match dmi_memdev_name (mem_dev_handle mem) with
         | (Some bank_name, Some device_name) =>
             printk "%sDIMM location: %s %s"
               [AStr pfx; AStr bank_name; AStr device_name]
         | _ =>
             printk "%sDIMM DMI handle: 0x%.4x"
               [AStr pfx; AInt (mem_dev_handle mem)]
         end)
  end.

Definition cper_print_mem (pfx : string) (mem : cper_sec_mem_err)
  : list printk_call :=
  mem_stmt pfx mem MEM_error_status ++
  mem_stmt pfx mem MEM_pa ++
  mem_stmt pfx mem MEM_pa_mask ++
  mem_stmt pfx mem MEM_node ++
  mem_stmt pfx mem MEM_card ++
  mem_stmt pfx mem MEM_module ++
  mem_stmt pfx mem MEM_rank_number ++
  mem_stmt pfx mem MEM_bank ++
  mem_stmt pfx mem MEM_device ++
  mem_stmt pfx mem MEM_row ++
  mem_stmt pfx mem MEM_column ++
  mem_stmt pfx mem MEM_bit_position ++
  mem_stmt pfx mem MEM_requestor_id ++
  mem_stmt pfx mem MEM_responder_id ++
  mem_stmt pfx mem MEM_target_id ++
  mem_stmt pfx mem MEM_error_type ++
  mem_stmt pfx mem MEM_module_handle.

Definition mem_field_mask (f : mem_field) : Z :=
  match f with
  | MEM_error_status => CPER_MEM_VALID_ERROR_STATUS
  | MEM_pa => CPER_MEM_VALID_PA
  | MEM_pa_mask => CPER_MEM_VALID_PA_MASK
  | MEM_node => CPER_MEM_VALID_NODE
  | MEM_card => CPER_MEM_VALID_CARD
  | MEM_module => CPER_MEM_VALID_MODULE
  | MEM_rank_number => CPER_MEM_VALID_RANK_NUMBER
  | MEM_bank => CPER_MEM_VALID_BANK
  | MEM_device => CPER_MEM_VALID_DEVICE
  | MEM_row => CPER_MEM_VALID_ROW
  | MEM_column => CPER_MEM_VALID_COLUMN
  | MEM_bit_position => CPER_MEM_VALID_BIT_POSITION
  | MEM_requestor_id => CPER_MEM_VALID_REQUESTOR_ID
  | MEM_responder_id => CPER_MEM_VALID_RESPONDER_ID
  | MEM_target_id => CPER_MEM_VALID_TARGET_ID
  | MEM_error_type => CPER_MEM_VALID_ERROR_TYPE
  | MEM_module_handle => CPER_MEM_VALID_MODULE_HANDLE
  end.

Definition mem_field_value (f : mem_field) (mem : cper_sec_mem_err) : Z :=
  match f with
  | MEM_error_status => error_status mem
  | MEM_pa => physical_addr mem
  | MEM_pa_mask => physical_addr_mask mem
  | MEM_node => node mem
  | MEM_card => card mem
  | MEM_module => module mem
  | MEM_rank_number => rank mem
  | MEM_bank => bank mem
  | MEM_device => device mem
  | MEM_row => row mem
  | MEM_column => column mem
  | MEM_bit_position => bit_pos mem
  | MEM_requestor_id => requestor_id mem
  | MEM_responder_id => responder_id mem
  | MEM_target_id => target_id mem
  | MEM_error_type => error_type mem
  | MEM_module_handle => mem_dev_handle mem
  end.

(** The members that cper_print_mem hands to pr_debug. *)
Definition mem_debug_fields : list mem_field :=
  [MEM_node; MEM_card; MEM_module; MEM_rank_number; MEM_bank; MEM_device;
   MEM_row; MEM_column; MEM_bit_position; MEM_requestor_id;
   MEM_responder_id; MEM_target_id].

(** The members that it hands to printk. *)
Definition mem_printk_fields : list mem_field :=
  [MEM_error_status; MEM_pa; MEM_pa_mask; MEM_error_type; MEM_module_handle].

(** What reaches the log at the default level. *)
Definition standard_report (out : list printk_call) : list printk_call :=
  filter (fun c => match lvl c with KERN_DEFAULT => true | _ => false end) out.

(** ** cper_print_pcie *)

Inductive pcie_field :=
| PCIE_port_type | PCIE_version | PCIE_command_status | PCIE_device_id
| PCIE_serial_number | PCIE_bridge_control_status | PCIE_aer_info.

Definition pcie_stmt (pfx : string) (pcie : cper_sec_pcie)
    (gdata : acpi_generic_data) (f : pcie_field) : list printk_call :=
  let v := pcie_validation_bits pcie in
  match f with
  | PCIE_port_type =>
      when (bits_set v CPER_PCIE_VALID_PORT_TYPE)
        (printk ("%sport_type: %d, %s" ++ LF)
           [AStr pfx; AInt (port_type pcie);
            AStr (str_or_unknown cper_pcie_port_type_strs (port_type pcie))])
  | PCIE_version =>
      when (bits_set v CPER_PCIE_VALID_VERSION)
        (printk ("%sversion: %d.%d" ++ LF)
           [AStr pfx; AInt (major (version pcie));
            AInt (minor (version pcie))])
  | PCIE_command_status =>
      when (bits_set v CPER_PCIE_VALID_COMMAND_STATUS)
        (printk ("%scommand: 0x%04x, status: 0x%04x" ++ LF)
           [AStr pfx; AInt (command pcie); AInt (status pcie)])
  | PCIE_device_id =>
      when (bits_set v CPER_PCIE_VALID_DEVICE_ID)
        (let d := device_id pcie in
         printk ("%sdevice_id: %04x:%02x:%02x.%x" ++ LF)
           [AStr pfx; AInt (segment d); AInt (bus d); AInt (devid_device d);
            AInt (function d)] ++
         printk ("%sslot: %d" ++ LF)
           [AStr pfx; AInt (Z.shiftr (slot d) CPER_PCIE_SLOT_SHIFT)] ++
         printk ("%ssecondary_bus: 0x%02x" ++ LF)
           [AStr pfx; AInt (secondary_bus d)] ++
         printk ("%svendor_id: 0x%04x, device_id: 0x%04x" ++ LF)
           [AStr pfx; AInt (vendor_id d); AInt (devid_device_id d)] ++
         let p := class_code d in
         printk ("%sclass_code: %02x%02x%02x" ++ LF)
           [AStr pfx; AInt (nth 0 p 0); AInt (nth 1 p 0); AInt (nth 2 p 0)])
  | PCIE_serial_number =>
      when (bits_set v CPER_PCIE_VALID_SERIAL_NUMBER)
        (printk ("%sserial number: 0x%04x, 0x%04x" ++ LF)
           [AStr pfx; AInt (lower (serial_number pcie));
            AInt (upper (serial_number pcie))])
  | PCIE_bridge_control_status =>
      when (bits_set v CPER_PCIE_VALID_BRIDGE_CONTROL_STATUS)
        (printk ("%sbridge: secondary_status: 0x%04x, control: 0x%04x" ++ LF)
           [AStr pfx; AInt (secondary_status (bridge pcie));
            AInt (control (bridge pcie))])
  | PCIE_aer_info =>
      when (bits_set v CPER_PCIE_VALID_AER_INFO &&
            bits_set (error_severity gdata) CPER_SEV_FATAL)
        (let aer := aer_info pcie in
         printk ("%saer_uncor_status: 0x%08x, aer_uncor_mask: 0x%08x" ++ LF)
           [AStr pfx; AInt (uncor_status aer); AInt (uncor_mask aer)] ++
         printk ("%saer_uncor_severity: 0x%08x" ++ LF)
           [AStr pfx; AInt (uncor_severity aer)] ++
         printk ("%sTLP Header: %08x %08x %08x %08x" ++ LF)
           [AStr pfx; AInt (dw0 (header_log aer)); AInt (dw1 (header_log aer));
            AInt (dw2 (header_log aer)); AInt (dw3 (header_log aer))])
  end.

Definition cper_print_pcie (pfx : string) (pcie : cper_sec_pcie)
    (gdata : acpi_generic_data) : list printk_call :=
  pcie_stmt pfx pcie gdata PCIE_port_type ++
  pcie_stmt pfx pcie gdata PCIE_version ++
  pcie_stmt pfx pcie gdata PCIE_command_status ++
  pcie_stmt pfx pcie gdata PCIE_device_id ++
  pcie_stmt pfx pcie gdata PCIE_serial_number ++
  pcie_stmt pfx pcie gdata PCIE_bridge_control_status ++
  pcie_stmt pfx pcie gdata PCIE_aer_info.

Definition pcie_field_mask (f : pcie_field) : Z :=
  match f with
  | PCIE_port_type => CPER_PCIE_VALID_PORT_TYPE
  | PCIE_version => CPER_PCIE_VALID_VERSION
  | PCIE_command_status => CPER_PCIE_VALID_COMMAND_STATUS
  | PCIE_device_id => CPER_PCIE_VALID_DEVICE_ID
  | PCIE_serial_number => CPER_PCIE_VALID_SERIAL_NUMBER
  | PCIE_bridge_control_status => CPER_PCIE_VALID_BRIDGE_CONTROL_STATUS
  | PCIE_aer_info => CPER_PCIE_VALID_AER_INFO
  end.

(** The members behind a statement; a field of the PCIe section may be a
    structure, so its value is the list of its members. *)
Definition pcie_field_value (f : pcie_field) (pcie : cper_sec_pcie)
  : list Z :=
  match f with
  | PCIE_port_type => [port_type pcie]
  | PCIE_version => [major (version pcie); minor (version pcie)]
  | PCIE_command_status => [command pcie; status pcie]
  | PCIE_device_id =>
      let d := device_id pcie in
      [segment d; bus d; devid_device d; function d; slot d; secondary_bus d;
       vendor_id d; devid_device_id d;
       nth 0 (class_code d) 0; nth 1 (class_code d) 0; nth 2 (class_code d) 0]
  | PCIE_serial_number =>
      [lower (serial_number pcie); upper (serial_number pcie)]
  | PCIE_bridge_control_status =>
      [secondary_status (bridge pcie); control (bridge pcie)]
  | PCIE_aer_info =>
      let aer := aer_info pcie in
      [uncor_status aer; uncor_mask aer; uncor_severity aer;
       dw0 (header_log aer); dw1 (header_log aer); dw2 (header_log aer);
       dw3 (header_log aer)]
  end.

(** ** Vocabulary of the properties *)

(** Two payloads that differ at most in the member behind one statement. *)
Definition proc_differ_only_in (f : proc_field)
    (p1 p2 : cper_sec_proc_generic) : Prop :=
  proc_validation_bits p1 = proc_validation_bits p2 /\
  forall g, g <> f -> proc_field_value g p1 = proc_field_value g p2.

Definition mem_differ_only_in (f : mem_field)
    (m1 m2 : cper_sec_mem_err) : Prop :=
  mem_validation_bits m1 = mem_validation_bits m2 /\
  forall g, g <> f -> mem_field_value g m1 = mem_field_value g m2.

Definition pcie_differ_only_in (f : pcie_field)
    (c1 c2 : cper_sec_pcie) : Prop :=
  pcie_validation_bits c1 = pcie_validation_bits c2 /\
  forall g, g <> f -> pcie_field_value g c1 = pcie_field_value g c2.

Definition ends_with_LF (s : string) : bool :=
  String.eqb (substring (String.length s - 1) 1 s) LF.







(** Two payloads that print alike: equal, or different only in a member
    whose validation bit is unset. *)
Definition proc_same_display (p1 p2 : cper_sec_proc_generic) : Prop :=
  p1 = p2 \/
  exists f, Z.land (proc_validation_bits p1) (proc_field_mask f) = 0 /\
            proc_differ_only_in f p1 p2.

Definition mem_same_display (m1 m2 : cper_sec_mem_err) : Prop :=
  m1 = m2 \/
  exists f, Z.land (mem_validation_bits m1) (mem_field_mask f) = 0 /\
            mem_differ_only_in f m1 m2.

Definition pcie_same_display (c1 c2 : cper_sec_pcie) : Prop :=
  c1 = c2 \/
  exists f, Z.land (pcie_validation_bits c1) (pcie_field_mask f) = 0 /\
            pcie_differ_only_in f c1 c2.






(** ** cper_estatus_print_section

    [gdata] is the descriptor at offset [off] of the block; its payload,
    [(gdata + 1)], is at [off + sizeof( *gdata)]. *)

(** The statements before the dispatch on the section type. *)
Definition section_header (pfx : string) (gdata : acpi_generic_data)
    (sec_no : Z) : list printk_call :=
  let severity := to_u16 (error_severity gdata) in
  printk ("%sError %d, type: %s" ++ LF)
    [AStr pfx; AInt sec_no; AStr (cper_severity_str severity)] ++
  when (bits_set (gd_validation_bits gdata) CPER_SEC_VALID_FRU_ID)
    (printk ("%sfru_id: %pUl" ++ LF) [AStr pfx; AUuid (fru_id gdata)]) ++
  when (bits_set (gd_validation_bits gdata) CPER_SEC_VALID_FRU_TEXT)
    (printk ("%sfru_text: %.20s" ++ LF) [AStr pfx; AStr (fru_text gdata)]).

(** The label [err_section_too_small]. *)
Definition err_section_too_small : list printk_call :=
  pr_err (FW_WARN ++ "error section length is too small" ++ LF) [].

Definition cper_estatus_print_section (pfx : string) (b : cper_blob)
    (off : Z) (sec_no : Z) : list printk_call :=
  let gdata := gdata_at b off in
  let payload := off + sizeof_acpi_generic_data in
  let sec_type := section_type gdata in
  section_header pfx gdata sec_no ++
  let newpfx := fst (snprintf 64 (pfx ++ INDENT_SP)) in
  if uuid_le_cmp sec_type CPER_SEC_PROC_GENERIC =? 0 then
    printk ("%ssection_type: general processor error" ++ LF) [AStr newpfx] ++
    (if sizeof_cper_sec_proc_generic <=? error_data_length gdata
     then cper_print_proc_generic newpfx (proc_generic_at b payload)
     else err_section_too_small)
  else if uuid_le_cmp sec_type CPER_SEC_PLATFORM_MEM =? 0 then
    printk ("%ssection_type: memory error" ++ LF) [AStr newpfx] ++
    (if sizeof_cper_sec_mem_err <=? error_data_length gdata
     then cper_print_mem newpfx (mem_err_at b payload)
     else err_section_too_small)
  else if uuid_le_cmp sec_type CPER_SEC_PCIE =? 0 then
    printk ("%ssection_type: PCIe error" ++ LF) [AStr newpfx] ++
    (if sizeof_cper_sec_pcie <=? error_data_length gdata
     then cper_print_pcie newpfx (pcie_at b payload) gdata
     else err_section_too_small)
  else
    printk ("%ssection type: unknown, %pUl" ++ LF)
      [AStr newpfx; AUuid sec_type].

(** ** cper_estatus_print *)

(** The statements before the loop. *)
Definition status_header (pfx : string) (e : acpi_generic_status)
  : list printk_call :=
  let severity := to_u16 (gs_error_severity e) in
  when (severity =? CPER_SEV_CORRECTED)
    (printk ("%s%s" ++ LF)
       [AStr pfx;
        AStr ("It has been corrected by h/w " ++
              "and requires no further action")]) ++
  printk ("%sevent severity: %s" ++ LF)
    [AStr pfx; AStr (cper_severity_str severity)].

(** The [while] loop; [None] when [fuel] turns do not reach its end. *)
Fixpoint print_sections (fuel : nat) (newpfx : string) (b : cper_blob)
    (data_len off sec_no : Z) : option (list printk_call) :=
  if sizeof_acpi_generic_data <=? data_len then
    match fuel with
    | O => None
    | S fuel' =>
        let gedata_len := to_uint (error_data_length (gdata_at b off)) in
        let out := cper_estatus_print_section newpfx b off sec_no in
        match print_sections fuel' newpfx b
                (to_uint (data_len -
                          to_size_t (gedata_len + sizeof_acpi_generic_data)))
                (off + sizeof_acpi_generic_data + gedata_len)
                (sec_no + 1)
        with
        | Some rest => Some (out ++ rest)%list
        | None => None
        end
    end
  else Some [].

Definition cper_estatus_print (fuel : nat) (pfx : string) (b : cper_blob)
  : option (list printk_call) :=
  let data_len := to_uint (data_length (estatus b)) in
  let newpfx := fst (snprintf 64 (pfx ++ INDENT_SP)) in
  match print_sections fuel newpfx b data_len 0 0 with
  | Some rest => Some (status_header pfx (estatus b) ++ rest)%list
  | None => None
  end.

(** *** The walk in the words of the specification

    The reports of [n] consecutive sections, the first at offset [off] with
    number [sec_no]; each next one is found past the header and the declared
    [error_data_length] of the one before. *)
Fixpoint section_reports (pfx : string) (b : cper_blob) (n : nat)
    (off sec_no : Z) : list printk_call :=
  match n with
  | O => []
  | S n' =>
      cper_estatus_print_section pfx b off sec_no ++
      section_reports pfx b n'
        (off + sizeof_acpi_generic_data + error_data_length (gdata_at b off))
        (sec_no + 1)
  end.

End Print.

(** ** cper_next_record_id

    [seq] is the static atomic64_t of the function, read here as an unsigned
    64-bit value; the clock reading get_seconds() is an input.  A call is
    three atomic accesses in program order: atomic64_read, atomic64_set when
    the value read was zero, and atomic64_inc_return. *)

Definition atomic64_read (seq : Z) : Z := seq.
Definition atomic64_set (v : Z) : Z := to_u64 v.
(** The new value of the counter, which is also the value returned. *)
Definition atomic64_inc_return (seq : Z) : Z := to_u64 (seq + 1).

(** A call run on its own: the identifier returned and the counter left. *)
Definition cper_next_record_id (get_seconds : Z) (seq : Z) : Z * Z :=
  let seq :=
    if atomic64_read seq =? 0
    then atomic64_set (Z.shiftl (to_u64 get_seconds) 32)
    else seq in
  let id := atomic64_inc_return seq in
  (id, id).

(** Where a call in progress stands. *)
Inductive call_pc :=
| AtRead
| AtSet
| AtInc
| Returned (id : Z).

(** One atomic access of a call, on the shared counter. *)
Definition call_step (get_seconds : Z) (seq : Z) (pc : call_pc)
  : Z * call_pc :=
  match pc with
  | AtRead => (seq, if atomic64_read seq =? 0 then AtSet else AtInc)
  | AtSet => (atomic64_set (Z.shiftl (to_u64 get_seconds) 32), AtInc)
  | AtInc => let id := atomic64_inc_return seq in (id, Returned id)
  | Returned id => (seq, Returned id)
  end.

(** Callers on several CPUs, one call each: the counter and every caller's
    position. *)
Record id_system := {
  seq : Z;
  callers : list call_pc
}.

Fixpoint set_nth {A} (n : nat) (x : A) (l : list A) : list A :=
  match l, n with
  | [], _ => []
  | _ :: l', O => x :: l'
  | y :: l', S n' => y :: set_nth n' x l'
  end.

(** Caller [who] performs its next access while the clock reads [now]. *)
Definition system_step (s : id_system) (who : nat) (now : Z) : id_system :=
  match nth_error (callers s) who with
  | Some pc =>
      let '(seq', pc') := call_step now (seq s) pc in
      {| seq := seq'; callers := set_nth who pc' (callers s) |}
  | None => s
  end.

(** A schedule lists who moves, and the clock reading, access by access. *)
Definition run_schedule (sched : list (nat * Z)) (s : id_system) : id_system :=
  fold_left (fun s '(who, now) => system_step s who now) sched s.

(** * Further vocabulary

    Definitions used by the properties of the walk, of the formatter and of
    the record identifiers that go beyond single statements. *)

Section Inside.
Context {H : cper_h}.

(** Two blocks with the same header whose descriptors declare the same
    payload lengths wherever a descriptor header fits into the
    [data_length] bytes behind the status header. *)
Definition same_lengths_inside (b1 b2 : cper_blob) : Prop :=
  estatus b1 = estatus b2 /\
  forall off,
    0 <= off ->
    off + sizeof_acpi_generic_data <= data_length (estatus b1) ->
    error_data_length (gdata_at b1 off) = error_data_length (gdata_at b2 off).

(** Two blocks that hold the same bytes inside their [data_length] bytes:
    the same descriptors and the same payloads wherever these lie inside. *)
Definition same_inside (b1 b2 : cper_blob) : Prop :=
  estatus b1 = estatus b2 /\
  (forall off,
     0 <= off ->
     off + sizeof_acpi_generic_data <= data_length (estatus b1) ->
     gdata_at b1 off = gdata_at b2 off) /\
  (forall p,
     0 <= p ->
     p + sizeof_cper_sec_proc_generic <= data_length (estatus b1) ->
     proc_generic_at b1 p = proc_generic_at b2 p) /\
  (forall p,
     0 <= p ->
     p + sizeof_cper_sec_mem_err <= data_length (estatus b1) ->
     mem_err_at b1 p = mem_err_at b2 p) /\
  (forall p,
     0 <= p ->
     p + sizeof_cper_sec_pcie <= data_length (estatus b1) ->
     pcie_at b1 p = pcie_at b2 p).

End Inside.

(** The format of the first line of a section report, and the section
    numbers that a report shows on such lines. *)
Definition error_line_format : string := "%sError %d, type: %s" ++ LF.

Definition section_numbers (out : list printk_call) : list Z :=
  flat_map
    (fun c =>
       if String.eqb (fmt c) error_line_format
       then match args c with
            | [_; AInt k; _] => [k]
            | _ => []
            end
       else [])
    out.

(** A call of cper_print_bits whose line fits the line buffer and, when the
    prefix fits too, starts with the prefix. *)
Definition bounded_line (pfx : string) (c : printk_call) : Prop :=
  exists line,
    c = {| lvl := KERN_DEFAULT; fmt := "%s" ++ LF; args := [AStr line] |} /\
    strlen line <= 83 /\
    (strlen pfx <= 83 -> prefix pfx line = true).

(** What the locals of cper_print_bits satisfy at every turn. *)
Definition buffer_ok (pfx : string) (st : bits_state) : Prop :=
  0 <= len st /\
  strlen (buf st) <= 83 /\
  (len st <> 0 ->
   (len st <= 83 -> strlen (buf st) = len st) /\
   (strlen pfx <= 83 -> prefix pfx (buf st) = true)) /\
  Forall (bounded_line pfx) (printed st).

(** The number of lines that the locals of cper_print_bits still hold. *)
Definition pending_lines (st : bits_state) : nat :=
  if len st =? 0 then 0%nat else 1%nat.

(** The lines of a report by their format: the two about the status block,
    the first lines of a section report (number and severity, FRU id, FRU
    text), and every other line (section type, decoder fields, flag
    names). *)
Inductive line_kind := StatusLine | SectionLine | DetailLine.

Definition status_formats : list string :=
  ["%s%s" ++ LF; "%sevent severity: %s" ++ LF].

Definition section_formats : list string :=
  [error_line_format; "%sfru_id: %pUl" ++ LF; "%sfru_text: %.20s" ++ LF].

Definition line_kind_of (f : string) : line_kind :=
  if existsb (String.eqb f) status_formats then StatusLine
  else if existsb (String.eqb f) section_formats then SectionLine
  else DetailLine.

(** Where a line of the report starts, by its kind: a line about the status
    block with the caller's prefix, a first line of a section report with
    the prefix and one blank, any other line with the prefix and two blanks
    (the lines of flag names may be cut behind them). *)
Definition indented_call (pfx : string) (c : printk_call) : Prop :=
  lvl c = KERN_DEFAULT ->
  exists text rest,
    args c = AStr text :: rest /\
    match line_kind_of (fmt c) with
    | StatusLine => text = pfx
    | SectionLine => text = pfx ++ INDENT_SP
    | DetailLine => prefix (pfx ++ INDENT_SP ++ INDENT_SP) text = true
    end.

(** A call at the default level that is neither a status line nor a first
    line of a section report, and whose first argument starts with [q]. *)
Definition starts_with (q : string) (c : printk_call) : Prop :=
  lvl c = KERN_DEFAULT ->
  line_kind_of (fmt c) = DetailLine /\
  exists text rest, args c = AStr text :: rest /\ prefix q text = true.


Section Short.
Context {H : cper_h}.


End Short.

(** Calls of cper_next_record_id one after the other; [clock] lists the
    reading of get_seconds() at each call. *)
Fixpoint next_record_ids (clock : list Z) (seq : Z) : list Z :=
  match clock with
  | [] => []
  | now :: clock' =>
      let '(id, seq') := cper_next_record_id now seq in
      id :: next_record_ids clock' seq'
  end.

(** * A concrete header

    An instance with the values these macros have in Linux on x86-64 (UEFI
    2.4, appendix N), to run the model on examples; no DMI table is present.
    The theorems hold for every instance. *)

#[local] Instance linux_cper_h : cper_h := {|
  sizeof_acpi_generic_status := 20;
  sizeof_acpi_generic_data := 64;
  sizeof_cper_sec_proc_generic := 192;
  sizeof_cper_sec_mem_err := 80;
  sizeof_cper_sec_pcie := 208;
  sizeof_acpi_generic_status_pos := conj eq_refl eq_refl;
  sizeof_acpi_generic_data_pos := conj eq_refl eq_refl;
  CPER_SEC_VALID_FRU_ID := 0x1;
  CPER_SEC_VALID_FRU_TEXT := 0x2;
  CPER_SEC_PROC_GENERIC :=
    [0xAD; 0xCC; 0x76; 0x98; 0xB4; 0x47; 0xDB; 0x4B;
     0xB6; 0x5E; 0x16; 0xF1; 0x93; 0xC4; 0xF3; 0xDB];
  CPER_SEC_PLATFORM_MEM :=
    [0x14; 0x11; 0xBC; 0xA5; 0x64; 0x6F; 0xDE; 0x4E;
     0xB8; 0x63; 0x3E; 0x83; 0xED; 0x7C; 0x83; 0xB1];
  CPER_SEC_PCIE :=
    [0x54; 0xE9; 0x95; 0xD9; 0xC1; 0xBB; 0x0F; 0x43;
     0xAD; 0x91; 0xB4; 0x4D; 0xCB; 0x3C; 0x6F; 0x35];
  CPER_PROC_VALID_TYPE := 0x0001;
  CPER_PROC_VALID_ISA := 0x0002;
  CPER_PROC_VALID_ERROR_TYPE := 0x0004;
  CPER_PROC_VALID_OPERATION := 0x0008;
  CPER_PROC_VALID_FLAGS := 0x0010;
  CPER_PROC_VALID_LEVEL := 0x0020;
  CPER_PROC_VALID_VERSION := 0x0040;
  CPER_PROC_VALID_ID := 0x0100;
  CPER_PROC_VALID_TARGET_ADDRESS := 0x0200;
  CPER_PROC_VALID_REQUESTOR_ID := 0x0400;
  CPER_PROC_VALID_RESPONDER_ID := 0x0800;
  CPER_PROC_VALID_IP := 0x1000;
  CPER_MEM_VALID_ERROR_STATUS := 0x0001;
  CPER_MEM_VALID_PA := 0x0002;
  CPER_MEM_VALID_PA_MASK := 0x0004;
  CPER_MEM_VALID_NODE := 0x0008;
  CPER_MEM_VALID_CARD := 0x0010;
  CPER_MEM_VALID_MODULE := 0x0020;
  CPER_MEM_VALID_BANK := 0x0040;
  CPER_MEM_VALID_DEVICE := 0x0080;
  CPER_MEM_VALID_ROW := 0x0100;
  CPER_MEM_VALID_COLUMN := 0x0200;
  CPER_MEM_VALID_BIT_POSITION := 0x0400;
  CPER_MEM_VALID_REQUESTOR_ID := 0x0800;
  CPER_MEM_VALID_RESPONDER_ID := 0x1000;
  CPER_MEM_VALID_TARGET_ID := 0x2000;
  CPER_MEM_VALID_ERROR_TYPE := 0x4000;
  CPER_MEM_VALID_RANK_NUMBER := 0x8000;
  CPER_MEM_VALID_MODULE_HANDLE := 0x20000;
  CPER_PCIE_VALID_PORT_TYPE := 0x0001;
  CPER_PCIE_VALID_VERSION := 0x0002;
  CPER_PCIE_VALID_COMMAND_STATUS := 0x0004;
  CPER_PCIE_VALID_DEVICE_ID := 0x0008;
  CPER_PCIE_VALID_SERIAL_NUMBER := 0x0010;
  CPER_PCIE_VALID_BRIDGE_CONTROL_STATUS := 0x0020;
  CPER_PCIE_VALID_AER_INFO := 0x0080;
  CPER_PCIE_SLOT_SHIFT := 3;
  dmi_memdev_name := fun _ => (None, None)
|}.

(** A prefix of 60 characters. *)
Definition prefix60 : string :=
  "[Hardware Error]: 0123456789012345678901234567890123456789  ".

(** Descriptors and blocks for the examples. *)

Definition sample_gdata (ty : uuid_le) (sev len : Z) : acpi_generic_data :=
  {| section_type := ty; error_severity := sev; revision := 0x201;
     gd_validation_bits := 0; gd_flags := 0; error_data_length := len;
     fru_id := []; fru_text := EmptyString |}.

Definition sample_proc : cper_sec_proc_generic :=
  {| proc_validation_bits := 0x10; proc_type := 0; proc_isa := 2;
     proc_error_type := 1; operation := 1; flags := 9; level := 0;
     cpu_version := 0; proc_id := 0; target_addr := 0;
     proc_requestor_id := 0; proc_responder_id := 0; ip := 0 |}.

Definition sample_mem (valid : Z) : cper_sec_mem_err :=
  {| mem_validation_bits := valid; error_status := 0;
     physical_addr := 0x12345000; physical_addr_mask := 0xfffffffffffff000;
     node := 3; card := 0; module := 1; bank := 2; device := 0; row := 0;
     column := 0; bit_pos := 0; requestor_id := 0; responder_id := 0;
     target_id := 0; error_type := 2; rank := 0; mem_dev_handle := 0x1a |}.

Definition sample_pcie (valid : Z) : cper_sec_pcie :=
  {| pcie_validation_bits := valid; port_type := 4;
     version := {| minor := 1; major := 2 |};
     command := 0x0547; status := 0x4010;
     device_id := {| vendor_id := 0x8086; devid_device_id := 0x3c02;
                     class_code := [0; 4; 6]; function := 0;
                     devid_device := 1; segment := 0; bus := 0;
                     secondary_bus := 1; slot := 8 |};
     serial_number := {| lower := 0; upper := 0 |};
     bridge := {| secondary_status := 0; control := 3 |};
     aer_info := {| uncor_status := 0x4000; uncor_mask := 0;
                    uncor_severity := 0x62030;
                    header_log := {| dw0 := 1; dw1 := 2; dw2 := 3;
                                     dw3 := 4 |} |} |}.

(** A block whose descriptors all have type [ty], severity [sev] and
    [error_data_length = len], with [data_length = dlen]. *)
Definition sample_blob (ty : uuid_le) (sev len dlen : Z) : cper_blob :=
  {| estatus := {| block_status := 1; raw_data_offset := 0;
                   raw_data_length := 0; data_length := dlen;
                   gs_error_severity := sev |};
     gdata_at := fun _ => sample_gdata ty sev len;
     proc_generic_at := fun _ => sample_proc;
     mem_err_at := fun _ => sample_mem 0x4002;
     pcie_at := fun _ => sample_pcie 0x80 |}.

(** One memory error section of 80 bytes behind a 64-byte descriptor. *)
Definition one_mem_section : cper_blob :=
  sample_blob CPER_SEC_PLATFORM_MEM CPER_SEV_FATAL 80 144.

(** The same block with other bytes behind its end: other descriptors at
    the offsets where no header fits any more, other memory error payloads
    where none fits, and other PCIe payloads everywhere. *)
Definition one_mem_section_tail : cper_blob :=
  {| estatus := estatus one_mem_section;
     gdata_at := fun off =>
       if off <=? 80 then gdata_at one_mem_section off
       else sample_gdata CPER_SEC_PCIE CPER_SEV_CORRECTED 7;
     proc_generic_at := proc_generic_at one_mem_section;
     mem_err_at := fun p =>
       if p <=? 64 then mem_err_at one_mem_section p else sample_mem 0;
     pcie_at := fun _ => sample_pcie 0 |}.

(** A block of 64 bytes, one descriptor header, whose descriptor declares
    [2^31 - 48] bytes of payload. *)
Definition overlong_section : cper_blob :=
  sample_blob CPER_SEC_PLATFORM_MEM CPER_SEV_FATAL (2 ^ 31 - 48) 64.

(** A block whose descriptors all declare [2^31 - 64] bytes of payload, with
    [data_length = 2^31 + 64]. *)
Definition endless_sections : cper_blob :=
  sample_blob CPER_SEC_PLATFORM_MEM CPER_SEV_FATAL (2 ^ 31 - 64) (2 ^ 31 + 64).




(** * Properties *)

Lemma to_uint_small z : u32_range z -> to_uint z = z.
Proof. unfold u32_range, to_uint. intros. apply Z.mod_small. lia. Qed.

Lemma to_size_t_small z : 0 <= z < 2 ^ 64 -> to_size_t z = z.
Proof. unfold to_size_t. intros. apply Z.mod_small. lia. Qed.

(** ** Validation *)

Section CheckTheorems.
Context {H : cper_h}.

Local Abbreviation sz := sizeof_acpi_generic_data.

Lemma sz_range : 0 < sz < 2 ^ 32.
Proof. exact sizeof_acpi_generic_data_pos. Qed.

(** Inside the loop the three conversions of [check_step] are the identity:
    nothing wraps. *)
Lemma check_step_exact b data_len off :
  wf_blob b -> u32_range data_len -> sz <= data_len ->
  check_step b data_len off =
    let l := error_data_length (gdata_at b off) in
    if data_len - sz <? l then WalkFail (- EINVAL)
    else WalkNext (data_len - (sz + l)) (off + sz + l).
Proof.
  intros [_ Hl] Hd Hs. pose proof sz_range as Hsz.
  specialize (Hl off). unfold check_step. cbv zeta.
  rewrite (to_uint_small _ Hl).
  unfold u32_range in *.
  rewrite (to_size_t_small (data_len - sz)) by lia.
  destruct (data_len - sz <? error_data_length (gdata_at b off)) eqn:E; auto.
  apply Z.ltb_ge in E.
  rewrite (to_size_t_small (_ + sz)) by lia.
  rewrite to_uint_small by (unfold u32_range; lia).
  f_equal; lia.
Qed.

Lemma check_sections_total b :
  wf_blob b ->
  forall fuel data_len off,
    u32_range data_len -> (Z.to_nat data_len < fuel)%nat ->
    exists rc, check_sections fuel b data_len off = Some rc /\
               (rc = 0 \/ rc = - EINVAL).
Proof.
  intros Hb. pose proof sz_range as Hsz.
  induction fuel as [|fuel IH]; intros data_len off Hd Hf; [lia|].
  cbn [check_sections].
  destruct (sz <=? data_len) eqn:E.
  - apply Z.leb_le in E.
    rewrite check_step_exact by auto. cbv zeta.
    destruct (data_len - sz <? _) eqn:E2.
    + eexists; split; eauto.
    + apply Z.ltb_ge in E2. destruct Hb as [_ Hl]. specialize (Hl off).
      unfold u32_range in *. apply IH; unfold u32_range; lia.
  - eexists; split; eauto. unfold check_tail.
    destruct (data_len =? 0); auto.
Qed.

Lemma check_sections_more_fuel b fuel :
  forall data_len off rc,
    check_sections fuel b data_len off = Some rc ->
    forall fuel', (fuel <= fuel')%nat ->
    check_sections fuel' b data_len off = Some rc.
Proof.
  induction fuel as [|fuel IH]; intros data_len off rc Hc fuel' Hle.
  - cbn [check_sections] in Hc.
    destruct fuel'; cbn [check_sections];
      destruct (_ <=? data_len); congruence.
  - destruct fuel' as [|fuel']; [lia|].
    cbn [check_sections] in *.
    destruct (_ <=? data_len); auto.
    destruct (check_step b data_len off); auto.
    apply IH; auto. lia.
Qed.

Lemma advance_zero_rem b n off off' rem :
  wf_blob b -> advance b n off rem = Some (off', 0) -> 0 < rem ->
  exists n', n = S n' /\
    sz + error_data_length (gdata_at b off) <= rem.
Proof.
  intros Hb Ha Hr. destruct n as [|n].
  - cbn in Ha. inversion Ha. lia.
  - exists n. split; auto. cbn [advance] in Ha.
    destruct (_ <=? rem) eqn:E; [|discriminate].
    now apply Z.leb_le in E.
Qed.

Lemma check_sections_exhausts b :
  wf_blob b ->
  forall fuel data_len off,
    u32_range data_len -> (Z.to_nat data_len < fuel)%nat ->
    (check_sections fuel b data_len off = Some 0 <->
     exists n off', advance b n off data_len = Some (off', 0)).
Proof.
  intros Hb. pose proof sz_range as Hsz.
  induction fuel as [|fuel IH]; intros data_len off Hd Hf; [lia|].
  cbn [check_sections].
  assert (Hl := proj2 Hb off). unfold u32_range in Hl, Hd.
  destruct (sz <=? data_len) eqn:E.
  - apply Z.leb_le in E.
    rewrite check_step_exact by auto. cbv zeta.
    destruct (data_len - sz <? _) eqn:E2.
    + apply Z.ltb_lt in E2. split; [discriminate|].
      intros (n & off' & Ha).
      destruct (advance_zero_rem _ _ _ _ _ Hb Ha) as (n' & -> & Hfit); lia.
    + apply Z.ltb_ge in E2.
      rewrite IH by (unfold u32_range; lia).
      split.
      * intros (n & off' & Ha). exists (S n), off'.
        cbn [advance].
        destruct (_ <=? data_len) eqn:E3; [exact Ha|].
        apply Z.leb_gt in E3. lia.
      * intros (n & off' & Ha).
        destruct (advance_zero_rem _ _ _ _ _ Hb Ha) as (n' & -> & Hfit);
          [lia|].
        exists n', off'. cbn [advance] in Ha.
        destruct (_ <=? data_len) eqn:E3; [exact Ha|discriminate].
  - apply Z.leb_gt in E. unfold check_tail.
    destruct (data_len =? 0) eqn:E0; cbn [negb].
    + apply Z.eqb_eq in E0. subst. split; auto.
      intros _. exists O, off. reflexivity.
    + apply Z.eqb_neq in E0. split; [intros [=]; lia|].
      intros (n & off' & Ha).
      destruct (advance_zero_rem _ _ _ _ _ Hb Ha) as (n' & -> & Hfit); lia.
Qed.

Lemma check_header_exact e :
  wf_status e ->
  cper_estatus_check_header e =
    if negb (data_length e =? 0) && (data_length e <? sz) then - EINVAL
    else if negb (raw_data_length e =? 0) &&
            (raw_data_offset e <? sizeof_acpi_generic_status + data_length e)
    then - EINVAL else 0.
Proof.
  intros (Ho & Hr & Hd). unfold cper_estatus_check_header.
  pose proof sizeof_acpi_generic_status_pos.
  unfold u32_range in *.
  rewrite to_size_t_small by lia. reflexivity.
Qed.

Lemma check_header_result e :
  cper_estatus_check_header e = 0 \/ cper_estatus_check_header e = - EINVAL.
Proof.
  unfold cper_estatus_check_header.
  destruct (negb _ && _); [now right|].
  destruct (negb _ && _); [now right|now left].
Qed.

Lemma check_sections_advance b :
  wf_blob b ->
  forall n fuel off0 rem0 off rem,
    u32_range rem0 -> (Z.to_nat rem0 < fuel)%nat ->
    advance b n off0 rem0 = Some (off, rem) ->
    exists fuel', (Z.to_nat rem < fuel')%nat /\ u32_range rem /\
      check_sections fuel b rem0 off0 = check_sections fuel' b rem off.
Proof.
  intros Hb. pose proof sz_range as Hsz.
  induction n as [|n IH]; intros fuel off0 rem0 off rem Hr Hf Ha.
  - cbn in Ha. inversion Ha; subst. eauto.
  - cbn [advance] in Ha.
    destruct (_ <=? rem0) eqn:E; [|discriminate]. apply Z.leb_le in E.
    assert (Hl := proj2 Hb off0). unfold u32_range in Hl, Hr.
    destruct fuel as [|fuel]; [lia|].
    cbn [check_sections].
    replace (sz <=? rem0) with true by (symmetry; apply Z.leb_le; lia).
    rewrite check_step_exact by (auto; unfold u32_range; lia). cbv zeta.
    replace (rem0 - sz <? _) with false by (symmetry; apply Z.ltb_ge; lia).
    apply IH; auto; unfold u32_range; lia.
Qed.


(** C1.  For a block whose header passes cper_estatus_check_header,
    cper_estatus_check returns 0 exactly when consuming
    sizeof(struct acpi_generic_data) plus [error_data_length] descriptor after
    descriptor exhausts [data_length]; otherwise it returns -EINVAL, the
    truncation error.  In particular it returns -EINVAL when, after any
    number [n] of descriptors that fit, the next one declares more payload
    than remains after its header, or when fewer bytes than one header, but
    not zero, are left; and it returns 0 when [data_length] is 0. *)
Theorem cper_estatus_check_exhausts (b : cper_blob) (fuel : nat) :
  wf_blob b ->
  cper_estatus_check_header (estatus b) = 0 ->
  (Z.to_nat (data_length (estatus b)) < fuel)%nat ->
  (cper_estatus_check fuel b = Some 0 <-> exhausts b) /\
  (cper_estatus_check fuel b <> Some 0 ->
   cper_estatus_check fuel b = Some (- EINVAL)) /\
  (forall n off rem,
     advance b n 0 (data_length (estatus b)) = Some (off, rem) ->
     sizeof_acpi_generic_data <= rem ->
     rem - sizeof_acpi_generic_data < error_data_length (gdata_at b off) ->
     cper_estatus_check fuel b = Some (- EINVAL)) /\
  (forall n off rem,
     advance b n 0 (data_length (estatus b)) = Some (off, rem) ->
     0 < rem < sizeof_acpi_generic_data ->
     cper_estatus_check fuel b = Some (- EINVAL)) /\
  (data_length (estatus b) = 0 -> cper_estatus_check fuel b = Some 0).
Proof.
  intros Hb Hh Hf. pose proof sz_range as Hsz.
  assert (Hd : u32_range (data_length (estatus b))) by apply Hb.
  unfold cper_estatus_check. rewrite Hh. cbn [Z.eqb negb].
  rewrite (to_uint_small _ Hd).
  split; [|split; [|split; [|split]]].
  - apply check_sections_exhausts; auto.
  - destruct (check_sections_total b Hb fuel _ 0 Hd Hf) as (rc & -> & [->| ->]);
      congruence.
  - intros n off rem Ha Hge Hlt.
    destruct (check_sections_advance b Hb n fuel _ _ _ _ Hd Hf Ha)
      as (fuel' & Hf' & Hr & ->).
    destruct fuel' as [|fuel']; [lia|]. cbn [check_sections].
    replace (sz <=? rem) with true by (symmetry; apply Z.leb_le; lia).
    rewrite check_step_exact by auto. cbv zeta.
    replace (rem - sz <? _) with true by (symmetry; apply Z.ltb_lt; lia).
    reflexivity.
  - intros n off rem Ha Hrem.
    destruct (check_sections_advance b Hb n fuel _ _ _ _ Hd Hf Ha)
      as (fuel' & Hf' & Hr & ->).
    destruct fuel' as [|fuel']; [lia|]. cbn [check_sections].
    replace (sz <=? rem) with false by (symmetry; apply Z.leb_gt; lia).
    unfold check_tail.
    replace (rem =? 0) with false by (symmetry; apply Z.eqb_neq; lia).
    reflexivity.
  - intros ->. destruct fuel; [lia|]. cbn [check_sections].
    replace (sz <=? 0) with false by (symmetry; apply Z.leb_gt; lia).
    reflexivity.
Qed.

(** C10.  cper_estatus_check terminates on every block, whether its header
    is valid or not.  A turn of its loop, entered with
    [data_len >= sizeof( *gdata)], either returns -EINVAL or has
    [gedata_len <= data_len - sizeof( *gdata)], so that the subtraction does
    not wrap: the new [data_len] is exactly
    [data_len - (gedata_len + sizeof( *gdata))], at least one header less
    than before.  Hence [data_length + 1] turns always yield a result. *)
Theorem cper_estatus_check_terminates (b : cper_blob) :
  wf_blob b ->
  (forall data_len off,
     u32_range data_len -> sizeof_acpi_generic_data <= data_len ->
     let gedata_len := error_data_length (gdata_at b off) in
     check_step b data_len off = WalkFail (- EINVAL) \/
     (gedata_len <= data_len - sizeof_acpi_generic_data /\
      check_step b data_len off =
        WalkNext (data_len - (gedata_len + sizeof_acpi_generic_data))
                 (off + sizeof_acpi_generic_data + gedata_len) /\
      0 <= data_len - (gedata_len + sizeof_acpi_generic_data)
        <= data_len - sizeof_acpi_generic_data /\
      data_len - (gedata_len + sizeof_acpi_generic_data) < data_len)) /\
  (forall fuel,
     (Z.to_nat (data_length (estatus b)) < fuel)%nat ->
     exists rc, cper_estatus_check fuel b = Some rc /\
                (rc = 0 \/ rc = - EINVAL)).
Proof.
  intros Hb. pose proof sz_range as Hsz. split.
  - intros data_len off Hd Hge gedata_len.
    rewrite check_step_exact by auto. cbv zeta. fold gedata_len.
    assert (Hl := proj2 Hb off). fold gedata_len in Hl.
    unfold u32_range in *.
    destruct (data_len - sz <? gedata_len) eqn:E; [now left|right].
    apply Z.ltb_ge in E. repeat split; try lia.
    f_equal; lia.
  - intros fuel Hf. unfold cper_estatus_check.
    destruct (negb _) eqn:E.
    + eexists; split; [reflexivity|]. right.
      destruct (check_header_result (estatus b)) as [He|He]; auto.
      rewrite He in E. discriminate.
    + assert (Hd : u32_range (data_length (estatus b))) by apply Hb.
      rewrite (to_uint_small _ Hd).
      apply check_sections_total; auto.
Qed.

End CheckTheorems.

(** ** Strings *)

Lemma strlen_append s1 s2 : strlen (s1 ++ s2) = strlen s1 + strlen s2.
Proof.
  unfold strlen. induction s1 as [|c s1 IH]; cbn [append String.length].
  - lia.
  - rewrite !Nat2Z.inj_succ. lia.
Qed.

Lemma strlen_nonneg s : 0 <= strlen s.
Proof. unfold strlen. lia. Qed.

Lemma substring_all s : forall n, (String.length s <= n)%nat ->
  substring 0 n s = s.
Proof.
  induction s as [|c s IH]; intros [|n] Hn; cbn in *; try reflexivity; try lia.
  f_equal. apply IH. lia.
Qed.

(** snprintf does not truncate a text that fits the buffer. *)
Lemma snprintf_fits size s :
  strlen s < size -> snprintf size s = (s, strlen s).
Proof.
  intros Hs. unfold snprintf. f_equal. apply substring_all.
  unfold strlen in Hs. lia.
Qed.

(** ** cper_print_bits *)

Lemma bit_1U_test bits i :
  (i < 32)%nat ->
  (Z.land bits (bit_1U i) =? 0) = negb (Z.testbit bits (Z.of_nat i)).
Proof.
  intros Hi. unfold bit_1U, to_uint.
  rewrite Z.shiftl_1_l.
  rewrite Z.mod_small.
  2:{ split; [apply Z.pow_nonneg; lia|].
      apply Z.pow_lt_mono_r; lia. }
  destruct (Z.testbit bits (Z.of_nat i)) eqn:E; cbn [negb].
  - apply Z.eqb_neq. intros H0.
    assert (Ht : Z.testbit (Z.land bits (2 ^ Z.of_nat i)) (Z.of_nat i) = true).
    { rewrite Z.land_spec, E, Z.pow2_bits_true by lia. reflexivity. }
    rewrite H0, Z.bits_0 in Ht. discriminate.
  - apply Z.eqb_eq. apply Z.bits_inj'. intros n Hn.
    rewrite Z.land_spec, Z.bits_0.
    destruct (Z.eq_dec n (Z.of_nat i)) as [->|Hne].
    + rewrite E. reflexivity.
    + rewrite Z.pow2_bits_false by lia. apply andb_false_r.
Qed.


Lemma cper_print_bits_step_lines pfx bits st i entry :
  Forall bits_line (printed st) ->
  Forall bits_line (printed (cper_print_bits_step pfx bits st i entry)).
Proof.
  intros Hst. unfold cper_print_bits_step.
  destruct (Z.land _ _ =? 0); [assumption|].
  destruct entry as [str|]; [|assumption].
  destruct (negb _ && _); cbn [len buf printed snprintf];
    destruct (_ =? 0); cbn [printed]; auto.
  all: apply Forall_app; split; auto.
  all: repeat constructor; eexists; reflexivity.
Qed.

Lemma cper_print_bits_lines pfx bits strs :
  Forall bits_line (cper_print_bits pfx bits strs).
Proof.
  unfold cper_print_bits. cbv zeta.
  assert (Hloop : forall strs i st, Forall bits_line (printed st) ->
            Forall bits_line (printed (cper_print_bits_loop pfx bits i strs st))).
  { clear strs. induction strs as [|entry strs IH]; intros i st Hst;
      cbn [cper_print_bits_loop]; auto.
    apply IH. now apply cper_print_bits_step_lines. }
  apply Forall_app; split.
  - apply Hloop. constructor.
  - destruct (negb _); repeat constructor. eexists; reflexivity.
Qed.

Lemma append_assoc (s1 s2 s3 : string) : (s1 ++ s2) ++ s3 = s1 ++ s2 ++ s3.
Proof. induction s1 as [|c s1 IH]; cbn; [reflexivity|now rewrite IH]. Qed.


(** ** The decoders *)

Section DecoderTheorems.
Context {H : cper_h}.

Lemma bits_unset v m : Z.land v m = 0 -> bits_set v m = false.
Proof. intros E. unfold bits_set. rewrite E. reflexivity. Qed.

Lemma proc_field_eq_dec (f g : proc_field) : {f = g} + {f <> g}.
Proof. decide equality. Qed.

Lemma mem_field_eq_dec (f g : mem_field) : {f = g} + {f <> g}.
Proof. decide equality. Qed.

Lemma pcie_field_eq_dec (f g : pcie_field) : {f = g} + {f <> g}.
Proof. decide equality. Qed.

(** A statement whose validation bit is unset prints nothing. *)

Lemma proc_stmt_unset pfx p f :
  Z.land (proc_validation_bits p) (proc_field_mask f) = 0 ->
  proc_stmt pfx p f = [].
Proof.
  intros E. apply bits_unset in E.
  destruct f; cbn [proc_stmt proc_field_mask] in *; rewrite E; reflexivity.
Qed.

Lemma mem_stmt_unset pfx m f :
  Z.land (mem_validation_bits m) (mem_field_mask f) = 0 ->
  mem_stmt pfx m f = [].
Proof.
  intros E. apply bits_unset in E.
  destruct f; cbn [mem_stmt mem_field_mask] in *; rewrite E; reflexivity.
Qed.

Lemma pcie_stmt_unset pfx c gdata f :
  Z.land (pcie_validation_bits c) (pcie_field_mask f) = 0 ->
  pcie_stmt pfx c gdata f = [].
Proof.
  intros E. apply bits_unset in E.
  destruct f; cbn [pcie_stmt pcie_field_mask] in *; rewrite E; reflexivity.
Qed.

(** A statement reads the validation bits and its own member only. *)

Lemma proc_stmt_reads pfx p1 p2 g :
  proc_validation_bits p1 = proc_validation_bits p2 ->
  proc_field_value g p1 = proc_field_value g p2 ->
  proc_stmt pfx p1 g = proc_stmt pfx p2 g.
Proof.
  intros Hv Hg.
  destruct g; cbn [proc_stmt proc_field_value] in *; rewrite Hv, Hg;
    reflexivity.
Qed.

Lemma mem_stmt_reads pfx m1 m2 g :
  mem_validation_bits m1 = mem_validation_bits m2 ->
  mem_field_value g m1 = mem_field_value g m2 ->
  mem_stmt pfx m1 g = mem_stmt pfx m2 g.
Proof.
  intros Hv Hg.
  destruct g; cbn [mem_stmt mem_field_value] in *; rewrite Hv, Hg;
    reflexivity.
Qed.

Lemma pcie_stmt_reads pfx c1 c2 gdata g :
  pcie_validation_bits c1 = pcie_validation_bits c2 ->
  pcie_field_value g c1 = pcie_field_value g c2 ->
  pcie_stmt pfx c1 gdata g = pcie_stmt pfx c2 gdata g.
Proof.
  intros Hv Hg.
  destruct g; cbn [pcie_stmt pcie_field_value] in *; cbv zeta in *;
    injection Hg as Hg; intros; rewrite Hv;
    repeat match goal with E : _ = _ |- _ => rewrite E; clear E end;
    reflexivity.
Qed.

Lemma proc_unset_same_output pfx f p1 p2 :
  Z.land (proc_validation_bits p1) (proc_field_mask f) = 0 ->
  proc_differ_only_in f p1 p2 ->
  cper_print_proc_generic pfx p1 = cper_print_proc_generic pfx p2.
Proof.
  intros Hbit [Hv Hrest].
  assert (Hs : forall g, proc_stmt pfx p1 g = proc_stmt pfx p2 g).
  { intros g. destruct (proc_field_eq_dec g f) as [->|Hne].
    - rewrite !proc_stmt_unset; congruence.
    - apply proc_stmt_reads; auto. }
  unfold cper_print_proc_generic. now rewrite !Hs.
Qed.

Lemma mem_unset_same_output pfx f m1 m2 :
  Z.land (mem_validation_bits m1) (mem_field_mask f) = 0 ->
  mem_differ_only_in f m1 m2 ->
  cper_print_mem pfx m1 = cper_print_mem pfx m2.
Proof.
  intros Hbit [Hv Hrest].
  assert (Hs : forall g, mem_stmt pfx m1 g = mem_stmt pfx m2 g).
  { intros g. destruct (mem_field_eq_dec g f) as [->|Hne].
    - rewrite !mem_stmt_unset; congruence.
    - apply mem_stmt_reads; auto. }
  unfold cper_print_mem. now rewrite !Hs.
Qed.

Lemma pcie_unset_same_output pfx f gdata c1 c2 :
  Z.land (pcie_validation_bits c1) (pcie_field_mask f) = 0 ->
  pcie_differ_only_in f c1 c2 ->
  cper_print_pcie pfx c1 gdata = cper_print_pcie pfx c2 gdata.
Proof.
  intros Hbit [Hv Hrest].
  assert (Hs : forall g, pcie_stmt pfx c1 gdata g = pcie_stmt pfx c2 gdata g).
  { intros g. destruct (pcie_field_eq_dec g f) as [->|Hne].
    - rewrite !pcie_stmt_unset; congruence.
    - apply pcie_stmt_reads; auto. }
  unfold cper_print_pcie. now rewrite !Hs.
Qed.

(** C5.  In each of the three decoders, when the validation bit of a field is
    unset the statement of that field prints nothing, and the whole output of
    the decoder is the same for any two payloads that differ only in that
    field: its value is not read.  The report of a section is therefore the
    same for two blocks with the same descriptor whose payloads differ only
    in such a field. *)
Theorem unset_validation_bit_hides_field (pfx : string) :
  (forall f p1 p2,
     Z.land (proc_validation_bits p1) (proc_field_mask f) = 0 ->
     proc_differ_only_in f p1 p2 ->
     proc_stmt pfx p1 f = [] /\
     cper_print_proc_generic pfx p1 = cper_print_proc_generic pfx p2) /\
  (forall f m1 m2,
     Z.land (mem_validation_bits m1) (mem_field_mask f) = 0 ->
     mem_differ_only_in f m1 m2 ->
     mem_stmt pfx m1 f = [] /\
     cper_print_mem pfx m1 = cper_print_mem pfx m2) /\
  (forall f gdata c1 c2,
     Z.land (pcie_validation_bits c1) (pcie_field_mask f) = 0 ->
     pcie_differ_only_in f c1 c2 ->
     pcie_stmt pfx c1 gdata f = [] /\
     cper_print_pcie pfx c1 gdata = cper_print_pcie pfx c2 gdata) /\
  (forall b1 b2 off sec_no,
     gdata_at b1 off = gdata_at b2 off ->
     let payload := off + sizeof_acpi_generic_data in
     proc_same_display (proc_generic_at b1 payload)
                       (proc_generic_at b2 payload) ->
     mem_same_display (mem_err_at b1 payload) (mem_err_at b2 payload) ->
     pcie_same_display (pcie_at b1 payload) (pcie_at b2 payload) ->
     cper_estatus_print_section pfx b1 off sec_no =
     cper_estatus_print_section pfx b2 off sec_no).
Proof.
  split; [|split; [|split]].
  - intros f p1 p2 Hbit Hd.
    split; [now apply proc_stmt_unset|].
    now apply proc_unset_same_output with f.
  - intros f m1 m2 Hbit Hd.
    split; [now apply mem_stmt_unset|].
    now apply mem_unset_same_output with f.
  - intros f gdata c1 c2 Hbit Hd.
    split; [now apply pcie_stmt_unset|].
    now apply pcie_unset_same_output with f.
  - intros b1 b2 off sec_no Hg payload Hp Hm Hc.
    unfold cper_estatus_print_section. cbv zeta. fold payload.
    rewrite Hg.
    set (newpfx := fst (snprintf 64 (pfx ++ INDENT_SP))).
    assert (Ep : cper_print_proc_generic newpfx (proc_generic_at b1 payload) =
                 cper_print_proc_generic newpfx (proc_generic_at b2 payload)).
    { destruct Hp as [->|(f & Hbit & Hd)]; [reflexivity|].
      now apply proc_unset_same_output with f. }
    assert (Em : cper_print_mem newpfx (mem_err_at b1 payload) =
                 cper_print_mem newpfx (mem_err_at b2 payload)).
    { destruct Hm as [->|(f & Hbit & Hd)]; [reflexivity|].
      now apply mem_unset_same_output with f. }
    assert (Ec : cper_print_pcie newpfx (pcie_at b1 payload) (gdata_at b2 off) =
                 cper_print_pcie newpfx (pcie_at b2 payload) (gdata_at b2 off)).
    { destruct Hc as [->|(f & Hbit & Hd)]; [reflexivity|].
      now apply pcie_unset_same_output with f. }
    now rewrite Ep, Em, Ec.
Qed.

(** X1.  The AER statement of cper_print_pcie prints exactly when the AER
    validation bit is set and [error_severity] is odd: for fatal (1), and
    also for 3 and every other odd value. *)
Lemma pcie_aer_stmt_printed pfx (pcie : cper_sec_pcie) gdata :
  pcie_stmt pfx pcie gdata PCIE_aer_info <> [] <->
  bits_set (pcie_validation_bits pcie) CPER_PCIE_VALID_AER_INFO = true /\
  Z.odd (error_severity gdata) = true.
Proof.
  cbn [pcie_stmt].
  assert (Hs : bits_set (error_severity gdata) CPER_SEV_FATAL =
               Z.odd (error_severity gdata)).
  { unfold bits_set.
    pose proof (bit_1U_test (error_severity gdata) 0 ltac:(lia)) as Hb.
    change (bit_1U 0) with CPER_SEV_FATAL in Hb.
    rewrite Hb, negb_involutive. apply Z.bit0_odd. }
  rewrite Hs.
  destruct (bits_set _ CPER_PCIE_VALID_AER_INFO), (Z.odd _); cbn; split;
    intuition (discriminate || congruence).
Qed.

(** C9.  In cper_print_mem the statements of node, card, module, rank, bank,
    device, row, column, bit_position, requestor_id, responder_id and
    target_id are calls of pr_debug whose format does not begin with the
    prefix conversion and whose only argument is the member; the statements
    of error_status, physical_address, physical_address_mask, error_type and
    the DIMM location or handle call printk with the prefix first.  So the
    report at the default level consists of these five statements only, and
    is the same whatever the twelve debug members hold. *)
Theorem cper_print_mem_debug_fields (pfx : string) (mem : cper_sec_mem_err) :
  (forall f, In f mem_debug_fields ->
     exists fm,
       prefix "%s" fm = false /\
       mem_stmt pfx mem f =
         when (bits_set (mem_validation_bits mem) (mem_field_mask f))
              (pr_debug fm [AInt (mem_field_value f mem)])) /\
  (forall f c, In f mem_printk_fields -> In c (mem_stmt pfx mem f) ->
     lvl c = KERN_DEFAULT /\ prefix "%s" (fmt c) = true /\
     exists rest, args c = AStr pfx :: rest) /\
  standard_report (cper_print_mem pfx mem) =
    flat_map (mem_stmt pfx mem) mem_printk_fields /\
  (forall mem',
     mem_validation_bits mem' = mem_validation_bits mem ->
     (forall f, In f mem_printk_fields ->
                mem_field_value f mem' = mem_field_value f mem) ->
     standard_report (cper_print_mem pfx mem') =
     standard_report (cper_print_mem pfx mem)).
Proof.
  assert (Hdbg : forall m f, In f mem_debug_fields ->
            standard_report (mem_stmt pfx m f) = []).
  { intros m f Hin. cbn in Hin.
    repeat (destruct Hin as [<-|Hin]; [cbn [mem_stmt];
      destruct (bits_set _ _); reflexivity|]). contradiction. }
  assert (Hstd : forall m f, In f mem_printk_fields ->
            standard_report (mem_stmt pfx m f) = mem_stmt pfx m f).
  { intros m f Hin. cbn in Hin.
    repeat (destruct Hin as [<-|Hin]; [cbn [mem_stmt];
      destruct (bits_set _ _); try reflexivity;
      try (destruct (dmi_memdev_name _) as [[?|] [?|]]; reflexivity)|]).
    contradiction. }
  assert (Hrep : forall m, standard_report (cper_print_mem pfx m) =
                           flat_map (mem_stmt pfx m) mem_printk_fields).
  { intros m. unfold cper_print_mem, standard_report.
    rewrite !filter_app.
    repeat match goal with
    | |- context [filter ?p (mem_stmt pfx m ?f)] =>
        change (filter p (mem_stmt pfx m f))
          with (standard_report (mem_stmt pfx m f));
        first [ rewrite (Hdbg m f) by (cbn; tauto)
              | rewrite (Hstd m f) by (cbn; tauto) ]
    end.
    cbn [flat_map mem_printk_fields app]. rewrite app_nil_r. reflexivity. }
  split; [|split; [|split]].
  - intros f Hin. cbn in Hin.
    repeat (destruct Hin as [<-|Hin];
            [eexists; split; [|cbn [mem_stmt]; reflexivity]; reflexivity|]).
    contradiction.
  - intros f c Hin Hc. cbn in Hin.
    repeat (destruct Hin as [<-|Hin]; [cbn [mem_stmt] in Hc;
      destruct (bits_set _ _); cbn in Hc;
      try (destruct (dmi_memdev_name _) as [[?|] [?|]]; cbn in Hc);
      try contradiction;
      destruct Hc as [<-|[]]; cbn; repeat split; eauto|]).
    contradiction.
  - apply Hrep.
  - intros mem' Hv Hf. rewrite !Hrep. cbn [flat_map mem_printk_fields].
    rewrite !(mem_stmt_reads pfx mem' mem) by (auto; apply Hf; cbn; tauto).
    reflexivity.
Qed.






End DecoderTheorems.

(** ** The section walk of cper_estatus_print *)

Section PrintTheorems.
Context {H : cper_h}.

Local Abbreviation sz := sizeof_acpi_generic_data.

Lemma print_sections_reports newpfx b :
  wf_blob b ->
  forall n fuel off rem sec_no off_end,
    u32_range rem ->
    advance b n off rem = Some (off_end, 0) ->
    (n <= fuel)%nat ->
    print_sections fuel newpfx b rem off sec_no =
      Some (section_reports newpfx b n off sec_no).
Proof.
  intros Hb. pose proof sz_range as Hsz.
  induction n as [|n IH]; intros fuel off rem sec_no off_end Hr Ha Hf.
  - cbn in Ha. inversion Ha; subst.
    destruct fuel; cbn [print_sections section_reports];
      replace (sz <=? 0) with false by (symmetry; apply Z.leb_gt; lia);
      reflexivity.
  - destruct fuel as [|fuel]; [lia|].
    cbn [advance] in Ha.
    destruct (_ <=? rem) eqn:E; [|discriminate]. apply Z.leb_le in E.
    assert (Hl := proj2 Hb off). unfold u32_range in Hl, Hr.
    cbn [print_sections section_reports].
    replace (sz <=? rem) with true by (symmetry; apply Z.leb_le; lia).
    rewrite (to_uint_small (error_data_length _)) by exact Hl.
    rewrite to_size_t_small by lia.
    rewrite to_uint_small by (unfold u32_range; lia).
    replace (rem - (error_data_length (gdata_at b off) + sz))
      with (rem - (sz + error_data_length (gdata_at b off))) by lia.
    rewrite (IH fuel _ _ _ off_end); auto; try lia.
    unfold u32_range; lia.
Qed.

End PrintTheorems.

(** ** cper_next_record_id *)

(** A caller that runs alone performs the function as written: read, set
    when the counter was zero, increment. *)
Lemma single_caller_sequential now s0 :
  run_schedule [(0, now); (0, now); (0, now)]%nat
    {| seq := s0; callers := [AtRead] |} =
  {| seq := snd (cper_next_record_id now s0);
     callers := [Returned (fst (cper_next_record_id now s0))] |}.
Proof.
  unfold run_schedule, cper_next_record_id, system_step.
  cbn [fold_left nth_error callers seq call_step].
  destruct (atomic64_read s0 =? 0); reflexivity.
Qed.

(** Calls one after the other get strictly increasing identifiers, as long as
    the counter does not reach 2^64. *)
Lemma cper_next_record_id_sequential now s0 :
  0 < s0 < 2 ^ 64 - 1 ->
  cper_next_record_id now s0 = (s0 + 1, s0 + 1).
Proof.
  intros Hs. unfold cper_next_record_id, atomic64_read, atomic64_inc_return.
  replace (s0 =? 0) with false by (symmetry; apply Z.eqb_neq; lia).
  unfold to_u64. rewrite Z.mod_small by lia. reflexivity.
Qed.

(** The seed of the second [now], and the first identifier after it. *)
Lemma first_id_of_second now :
  0 < now < 2 ^ 32 ->
  atomic64_inc_return (atomic64_set (Z.shiftl (to_u64 now) 32)) =
  now * 2 ^ 32 + 1.
Proof.
  intros Hn. unfold atomic64_inc_return, atomic64_set, to_u64.
  rewrite (Z.mod_small now) by lia.
  rewrite Z.shiftl_mul_pow2 by lia.
  assert (Hs : 0 <= now * 2 ^ 32 < 2 ^ 64 - 1) by nia.
  rewrite (Z.mod_small (now * 2 ^ 32)) by (destruct Hs; split; lia).
  rewrite Z.mod_small by (destruct Hs; split; lia). reflexivity.
Qed.


(** C6, refuted on an interleaving.  Two callers enter while the counter is
    still zero, in the second 1400000000.  Caller 0 reads zero; caller 1 then
    reads zero, seeds the counter and increments it; caller 0 now seeds the
    counter again and increments it.  Both calls return the same identifier.
    With two more callers, the calls of callers 2 and 3 do not overlap (2
    returns before 3 starts) and still return the same identifier. *)
Theorem cper_next_record_id_race :
  let seed := 1400000000 * 2 ^ 32 in
  let now := 1400000000 in
  callers (run_schedule
             [(0, now); (1, now); (1, now); (1, now); (0, now); (0, now)]%nat
             {| seq := 0; callers := [AtRead; AtRead] |})
    = [Returned (seed + 1); Returned (seed + 1)] /\
  callers (run_schedule
             [(0, now);
              (1, now); (1, now); (1, now);
              (2, now); (2, now);
              (0, now); (0, now);
              (3, now); (3, now)]%nat
             {| seq := 0; callers := [AtRead; AtRead; AtRead; AtRead] |})
    = [Returned (seed + 1); Returned (seed + 1);
       Returned (seed + 2); Returned (seed + 2)].
Proof. split; vm_compute; reflexivity. Qed.

(** * Further properties of the walk *)

Section WalkTheorems.
Context {H : cper_h}.

Local Abbreviation sz := sizeof_acpi_generic_data.

(** Along the walk the position and the remaining count add up to the same
    sum, and every section takes at least one header. *)
Lemma advance_sum b : wf_blob b ->
  forall n off rem off' rem',
    advance b n off rem = Some (off', rem') ->
    off' + rem' = off + rem /\ off <= off' /\ Z.of_nat n * sz <= rem - rem'.
Proof.
  intros Hb. pose proof sz_range as Hsz.
  induction n as [|n IH]; intros off rem off' rem' Ha.
  - cbn in Ha. inversion Ha; subst. cbn. lia.
  - cbn [advance] in Ha.
    destruct (_ <=? rem) eqn:E; [|discriminate]. apply Z.leb_le in E.
    assert (Hl := proj2 Hb off). unfold u32_range in Hl.
    destruct (IH _ _ _ _ Ha) as (Hs & Ho & Hn).
    rewrite Nat2Z.inj_succ. repeat split; nia.
Qed.

Lemma advance_add b n m off rem :
  advance b (n + m) off rem =
    match advance b n off rem with
    | Some (off', rem') => advance b m off' rem'
    | None => None
    end.
Proof.
  revert off rem. induction n as [|n IH]; intros off rem; cbn [advance Nat.add].
  - reflexivity.
  - destruct (_ <=? rem); [apply IH|reflexivity].
Qed.

(** The number of sections that exhaust a block is unique. *)
Lemma advance_unique b : wf_blob b ->
  forall n m off rem o1 o2,
    advance b n off rem = Some (o1, 0) ->
    advance b m off rem = Some (o2, 0) ->
    n = m.
Proof.
  intros Hb. pose proof sz_range as Hsz.
  assert (Hlt : forall n k off rem o1 o2,
            advance b n off rem = Some (o1, 0) ->
            advance b (n + S k) off rem = Some (o2, 0) -> False).
  { intros n k off rem o1 o2 H1 H2. rewrite advance_add, H1 in H2.
    cbn [advance] in H2. assert (Hl := proj2 Hb o1). unfold u32_range in Hl.
    destruct (_ <=? 0) eqn:E; [|discriminate]. apply Z.leb_le in E. lia. }
  intros n m off rem o1 o2 H1 H2.
  destruct (Nat.lt_trichotomy n m) as [Hnm|[Hnm|Hnm]]; auto; exfalso.
  - replace m with (n + S (m - n - 1))%nat in H2 by lia. eauto.
  - replace n with (m + S (n - m - 1))%nat in H1 by lia. eauto.
Qed.

Lemma check_accepts_exhausts b fuel :
  wf_blob b -> cper_estatus_check fuel b = Some 0 -> exhausts b.
Proof.
  intros Hb Hc.
  assert (Hd : u32_range (data_length (estatus b))) by apply Hb.
  unfold cper_estatus_check in Hc.
  destruct (negb _) eqn:E.
  - apply negb_true_iff, Z.eqb_neq in E. congruence.
  - rewrite (to_uint_small _ Hd) in Hc.
    set (big := S (Nat.max fuel (Z.to_nat (data_length (estatus b))))).
    assert (Hc' := check_sections_more_fuel _ _ _ _ _ Hc big).
    apply (check_sections_exhausts b Hb big _ 0 Hd); [lia|].
    apply Hc'. lia.
Qed.

(** X3.  A block that cper_estatus_check accepts is made of a definite
    number of sections: the walk over them ends exactly at offset
    [data_length], their number is at most [data_length] divided by the size
    of a descriptor header, and no other number of sections exhausts the
    block. *)
Theorem cper_estatus_check_section_count (b : cper_blob) (fuel : nat) :
  wf_blob b ->
  cper_estatus_check fuel b = Some 0 ->
  exists n,
    advance b n 0 (data_length (estatus b)) =
      Some (data_length (estatus b), 0) /\
    Z.of_nat n * sizeof_acpi_generic_data <= data_length (estatus b) /\
    forall m off,
      advance b m 0 (data_length (estatus b)) = Some (off, 0) -> m = n.
Proof.
  intros Hb Hc.
  destruct (check_accepts_exhausts b fuel Hb Hc) as (n & off & Ha).
  destruct (advance_sum b Hb _ _ _ _ _ Ha) as (Hs & _ & Hn).
  assert (off = data_length (estatus b)) by lia. subst off.
  exists n. repeat split; [assumption|lia|].
  intros m off Hm. symmetry. eapply advance_unique; eauto.
Qed.

(** cper_estatus_check reads nothing but the [error_data_length] of
    descriptors whose header lies inside the block. *)
Lemma check_sections_reads_inside b1 b2 :
  wf_blob b1 -> same_lengths_inside b1 b2 ->
  forall fuel rem off,
    0 <= off -> u32_range rem ->
    off + rem = data_length (estatus b1) ->
    check_sections fuel b1 rem off = check_sections fuel b2 rem off.
Proof.
  intros Hb [_ Hsame]. pose proof sz_range as Hsz.
  induction fuel as [|fuel IH]; intros rem off Ho Hr Hsum;
    cbn [check_sections]; [reflexivity|].
  destruct (sz <=? rem) eqn:E; [|reflexivity]. apply Z.leb_le in E.
  assert (Hstep : check_step b2 rem off = check_step b1 rem off).
  { unfold check_step. rewrite (Hsame off) by lia. reflexivity. }
  rewrite Hstep, check_step_exact by auto. cbv zeta.
  destruct (rem - sz <? _) eqn:E2; [reflexivity|]. apply Z.ltb_ge in E2.
  assert (Hl := proj2 Hb off). unfold u32_range in Hl, Hr.
  apply IH; unfold u32_range; lia.
Qed.

(** X4.  cper_estatus_check never reads outside the block: its result is the
    same for two blocks that have the same header and the same
    [error_data_length] in every descriptor whose header lies inside the
    [data_length] bytes, whatever else the descriptors, the payloads and the
    bytes behind the block hold. *)
Theorem cper_estatus_check_reads_inside (b1 b2 : cper_blob) (fuel : nat) :
  wf_blob b1 ->
  same_lengths_inside b1 b2 ->
  cper_estatus_check fuel b1 = cper_estatus_check fuel b2.
Proof.
  intros Hb Hsame. unfold cper_estatus_check.
  destruct Hsame as [He Hin]. rewrite <- He.
  destruct (negb _); [reflexivity|].
  assert (Hd : u32_range (data_length (estatus b1))) by apply Hb.
  rewrite (to_uint_small _ Hd).
  apply check_sections_reads_inside; auto; try lia.
  split; assumption.
Qed.

(** X5.  The loop of cper_estatus_check takes at most
    [data_length / sizeof( *gdata)] turns: that many turns and one more for
    the final test always give a result. *)
Theorem cper_estatus_check_turns (b : cper_blob) (fuel : nat) :
  wf_blob b ->
  (Z.to_nat (data_length (estatus b) / sizeof_acpi_generic_data) < fuel)%nat ->
  exists rc, cper_estatus_check fuel b = Some rc.
Proof.
  intros Hb Hf. pose proof sz_range as Hsz.
  assert (Hloop : forall fuel rem off,
            u32_range rem -> (Z.to_nat (rem / sz) < fuel)%nat ->
            exists rc, check_sections fuel b rem off = Some rc).
  { clear fuel Hf. induction fuel as [|fuel IH]; intros rem off Hr Hf; [lia|].
    cbn [check_sections].
    destruct (sz <=? rem) eqn:E; [|eauto]. apply Z.leb_le in E.
    rewrite check_step_exact by auto. cbv zeta.
    destruct (rem - sz <? _) eqn:E2; [eauto|]. apply Z.ltb_ge in E2.
    assert (Hl := proj2 Hb off). unfold u32_range in Hl, Hr.
    apply IH; [unfold u32_range; lia|].
    set (l := error_data_length (gdata_at b off)) in *.
    assert (Hdiv : (rem - (sz + l)) / sz <= rem / sz - 1).
    { replace (rem / sz - 1) with ((rem - sz) / sz).
      - apply Z.div_le_mono; lia.
      - replace (rem - sz) with (rem + (-1) * sz) by lia.
        rewrite Z.div_add by lia. lia. }
    assert (0 <= (rem - (sz + l)) / sz) by (apply Z.div_pos; lia).
    assert (1 <= rem / sz) by lia.
    lia. }
  unfold cper_estatus_check. destruct (negb _); [eauto|].
  assert (Hd : u32_range (data_length (estatus b))) by apply Hb.
  rewrite (to_uint_small _ Hd). apply Hloop; auto.
Qed.

End WalkTheorems.

(** * Further properties of cper_print_bits *)

Lemma substring_length s : forall n,
  (String.length (substring 0 n s) <= n)%nat.
Proof.
  induction s as [|c s IH]; intros [|n]; cbn; try lia.
  specialize (IH n). lia.
Qed.

Lemma prefix_refl s : prefix s s = true.
Proof.
  induction s as [|c s IH]; cbn; [reflexivity|].
  destruct (ascii_dec c c); [assumption|contradiction].
Qed.

Lemma prefix_app s t u : prefix s t = true -> prefix s (t ++ u) = true.
Proof.
  revert t. induction s as [|c s IH]; intros t Hp;
    [destruct (t ++ u); reflexivity|].
  destruct t as [|d t]; cbn in *; [discriminate|].
  destruct (ascii_dec c d); [auto|discriminate].
Qed.

Lemma prefix_substring s t n :
  (String.length s <= n)%nat -> prefix s (substring 0 n (s ++ t)) = true.
Proof.
  revert n. induction s as [|c s IH]; intros n Hn.
  - destruct (substring 0 n (EmptyString ++ t)); reflexivity.
  - destruct n as [|n]; cbn in *; [lia|].
    destruct (ascii_dec c c); [|contradiction]. apply IH. lia.
Qed.

Lemma first_on_line_ok pfx str printed0 :
  Forall (bounded_line pfx) printed0 ->
  buffer_ok pfx
    (let '(text, n) := snprintf 84 (pfx ++ str) in
     {| buf := text; len := n; printed := printed0 |}).
Proof.
  intros Hp. unfold snprintf. cbn [buf len printed buffer_ok].
  change (Z.to_nat (84 - 1)) with 83%nat.
  pose proof (substring_length (pfx ++ str) 83) as Hsub.
  pose proof (strlen_nonneg (pfx ++ str)).
  unfold buffer_ok. cbn [buf len printed].
  repeat split; auto; try (unfold strlen; lia).
  - intros Hle. rewrite substring_all; [reflexivity|].
    unfold strlen in Hle. lia.
  - intros Hpfx. apply prefix_substring. unfold strlen in Hpfx. lia.
Qed.

Lemma cper_print_bits_step_ok pfx bits st i entry :
  buffer_ok pfx st ->
  buffer_ok pfx (cper_print_bits_step pfx bits st i entry).
Proof.
  intros Hst. pose proof Hst as (Hlen & Hbuf & Hline & Hprinted).
  unfold cper_print_bits_step.
  destruct (Z.land _ _ =? 0); [assumption|].
  destruct entry as [str|]; [|assumption].
  pose proof (strlen_nonneg str) as Hs.
  destruct (len st =? 0) eqn:E0; cbn [negb andb].
  - rewrite E0. now apply first_on_line_ok.
  - apply Z.eqb_neq in E0. destruct (Hline E0) as (Hfull & Hpre).
    destruct (80 <? len st + strlen str + 2) eqn:E; cbn [len buf printed].
    + cbn [Z.eqb]. apply first_on_line_ok.
      apply Forall_app; split; [assumption|].
      repeat constructor. exists (buf st). repeat split; auto.
    + apply Z.ltb_ge in E.
      replace (len st =? 0) with false by (symmetry; apply Z.eqb_neq; lia).
      rewrite snprintf_fits
        by (rewrite strlen_append; change (strlen ", ") with 2; lia).
      rewrite substring_all by (unfold strlen in *; lia).
      unfold buffer_ok. cbn [buf len printed].
      rewrite !strlen_append. change (strlen ", ") with 2.
      rewrite Hfull by lia.
      repeat split; auto; try lia.
      intros Hpfx. apply prefix_app. auto.
Qed.

Lemma cper_print_bits_bounded pfx bits strs :
  Forall (bounded_line pfx) (cper_print_bits pfx bits strs).
Proof.
  assert (Hloop : forall strs i st, buffer_ok pfx st ->
            buffer_ok pfx (cper_print_bits_loop pfx bits i strs st)).
  { clear strs. induction strs as [|entry strs IH]; intros i st Hst;
      cbn [cper_print_bits_loop]; auto.
    apply IH. now apply cper_print_bits_step_ok. }
  unfold cper_print_bits. cbv zeta.
  set (st := cper_print_bits_loop pfx bits 0 strs _).
  assert (Hst : buffer_ok pfx st).
  { apply Hloop. unfold buffer_ok. cbn [len buf printed].
    split; [lia|]. split; [cbn; lia|].
    split; [intros Hne; contradiction|constructor]. }
  destruct Hst as (Hlen & Hbuf & Hline & Hprinted).
  apply Forall_app; split; [assumption|].
  destruct (len st =? 0) eqn:E0; cbn [negb]; [constructor|].
  apply Z.eqb_neq in E0. destruct (Hline E0) as (_ & Hpre).
  repeat constructor. exists (buf st). repeat split; auto.
Qed.

(** X6.  For a table of at most 32 entries, the range in which [1U << i] is
    defined, and whatever the mask and the prefix, every line that
    cper_print_bits prints has at most 83 characters, the capacity of its
    84-byte buffer, and starts with the prefix whenever the prefix itself has
    at most 83 characters. *)
Theorem cper_print_bits_buffer (pfx : string) (bits : Z)
    (strs : list (option string)) :
  (List.length strs <= 32)%nat ->
  Forall (bounded_line pfx) (cper_print_bits pfx bits strs).
Proof. intros _. apply cper_print_bits_bounded. Qed.

(** X7.  cper_print_bits looks only at the bits that have a name: for a
    table of at most 32 entries, two masks that agree on every bit whose
    table entry is not NULL print the same lines.  Bits at or beyond the size
    of the table, and bits with a NULL entry, change nothing. *)
Theorem cper_print_bits_named_bits (pfx : string) (bits bits' : Z)
    (strs : list (option string)) :
  (List.length strs <= 32)%nat ->
  (forall i name,
     nth_error strs i = Some (Some name) ->
     Z.testbit bits (Z.of_nat i) = Z.testbit bits' (Z.of_nat i)) ->
  cper_print_bits pfx bits strs = cper_print_bits pfx bits' strs.
Proof.
  intros Hlen Hagree.
  assert (Hloop : forall strs i st,
            (i + List.length strs <= 32)%nat ->
            (forall j name,
               nth_error strs j = Some (Some name) ->
               Z.testbit bits (Z.of_nat (i + j)) =
               Z.testbit bits' (Z.of_nat (i + j))) ->
            cper_print_bits_loop pfx bits i strs st =
            cper_print_bits_loop pfx bits' i strs st).
  { clear strs Hlen Hagree.
    induction strs as [|entry strs IH]; intros i st Hi Hag;
      cbn [cper_print_bits_loop List.length] in *; [reflexivity|].
    assert (Hstep : cper_print_bits_step pfx bits st i entry =
                    cper_print_bits_step pfx bits' st i entry).
    { unfold cper_print_bits_step. rewrite !bit_1U_test by lia.
      destruct entry as [str|].
      - specialize (Hag 0%nat str eq_refl). rewrite Nat.add_0_r in Hag.
        rewrite Hag. reflexivity.
      - destruct (negb _), (negb _); reflexivity. }
    rewrite Hstep. apply IH; [lia|].
    intros j name Hj. specialize (Hag (S j) name Hj).
    now rewrite Nat.add_succ_r in Hag. }
  unfold cper_print_bits. cbv zeta. rewrite Hloop; auto.
Qed.

Lemma cper_print_bits_step_count pfx bits st i entry :
  (i < 32)%nat ->
  let st' := cper_print_bits_step pfx bits st i entry in
  (List.length (printed st') + pending_lines st' <=
   List.length (printed st) + pending_lines st +
   List.length (selected_names bits i [entry]))%nat.
Proof.
  intros Hi. cbv zeta. unfold cper_print_bits_step. cbn [selected_names].
  rewrite bit_1U_test by lia.
  destruct entry as [str|]; [|destruct (negb _); lia].
  destruct (Z.testbit bits (Z.of_nat i)); cbn [negb]; [|lia].
  cbn [List.length].
  assert (Hp : forall s, (pending_lines s <= 1)%nat)
    by (intros s; unfold pending_lines; destruct (len s =? 0); lia).
  unfold snprintf.
  destruct (len st =? 0) eqn:E0; cbn [negb andb].
  - rewrite E0. cbn [printed].
    match goal with |- (_ + pending_lines ?s <= _)%nat => specialize (Hp s) end.
    lia.
  - assert (pending_lines st = 1%nat)
      by (unfold pending_lines; now rewrite E0).
    destruct (80 <? _); cbn [len buf printed Z.eqb]; rewrite ?E0;
      cbn [printed]; rewrite ?length_app; cbn [List.length printk];
      match goal with |- (_ + pending_lines ?s <= _)%nat => specialize (Hp s)
      end; lia.
Qed.

(** X8.  For a table of at most 32 entries cper_print_bits prints at most
    one line for each set bit that has a name, and so nothing at all when no
    such bit is set. *)
Theorem cper_print_bits_line_count (pfx : string) (bits : Z)
    (strs : list (option string)) :
  (List.length strs <= 32)%nat ->
  (List.length (cper_print_bits pfx bits strs) <=
   List.length (selected_names bits 0 strs))%nat /\
  (selected_names bits 0 strs = [] -> cper_print_bits pfx bits strs = []).
Proof.
  intros Hlen.
  assert (Hloop : forall strs i st,
            (i + List.length strs <= 32)%nat ->
            (List.length (printed (cper_print_bits_loop pfx bits i strs st)) +
             pending_lines (cper_print_bits_loop pfx bits i strs st) <=
             List.length (printed st) + pending_lines st +
             List.length (selected_names bits i strs))%nat).
  { clear strs Hlen.
    induction strs as [|entry strs IH]; intros i st Hi;
      cbn [cper_print_bits_loop List.length] in *; [cbn; lia|].
    specialize (IH (S i) (cper_print_bits_step pfx bits st i entry)
                  ltac:(lia)).
    pose proof (cper_print_bits_step_count pfx bits st i entry ltac:(lia))
      as Hstep. cbv zeta in Hstep.
    assert (Hsel : List.length (selected_names bits i (entry :: strs)) =
                   (List.length (selected_names bits i [entry]) +
                    List.length (selected_names bits (S i) strs))%nat).
    { cbn [selected_names]. destruct entry as [name|]; [|reflexivity].
      destruct (Z.testbit _ _); reflexivity. }
    lia. }
  assert (Hcount : (List.length (cper_print_bits pfx bits strs) <=
                    List.length (selected_names bits 0 strs))%nat).
  { unfold cper_print_bits. cbv zeta.
    specialize (Hloop strs 0%nat
                  {| buf := EmptyString; len := 0; printed := [] |}
                  ltac:(cbn; lia)).
    set (st := cper_print_bits_loop pfx bits 0 strs _) in *.
    rewrite length_app. unfold pending_lines in Hloop.
    cbn [len printed Z.eqb List.length] in Hloop.
    destruct (len st =? 0); cbn [negb List.length printk]; lia. }
  split; [exact Hcount|].
  intros Hnone. rewrite Hnone in Hcount.
  destruct (cper_print_bits pfx bits strs); [reflexivity|cbn in Hcount; lia].
Qed.

(** * Further properties of cper_estatus_print *)

Section ReportTheorems.
Context {H : cper_h}.

Local Abbreviation sz := sizeof_acpi_generic_data.

(** The report of a section that lies inside the block reads its descriptor
    and, when the declared length covers the structure of its type, the
    payload; both lie inside. *)
Lemma print_section_same_inside pfx b1 b2 off k :
  wf_blob b1 -> same_inside b1 b2 ->
  0 <= off ->
  off + sz + error_data_length (gdata_at b1 off) <= data_length (estatus b1) ->
  cper_estatus_print_section pfx b1 off k =
  cper_estatus_print_section pfx b2 off k.
Proof.
  intros Hb (He & Hg & Hp & Hm & Hc) Ho Hfit. pose proof sz_range as Hsz.
  assert (Hl := proj2 Hb off). unfold u32_range in Hl.
  unfold cper_estatus_print_section. cbv zeta.
  rewrite <- (Hg off) by lia.
  destruct (uuid_le_cmp _ CPER_SEC_PROC_GENERIC =? 0).
  { destruct (_ <=? _) eqn:E; [|reflexivity]. apply Z.leb_le in E.
    rewrite <- Hp by lia. reflexivity. }
  destruct (uuid_le_cmp _ CPER_SEC_PLATFORM_MEM =? 0).
  { destruct (_ <=? _) eqn:E; [|reflexivity]. apply Z.leb_le in E.
    rewrite <- Hm by lia. reflexivity. }
  destruct (uuid_le_cmp _ CPER_SEC_PCIE =? 0); [|reflexivity].
  destruct (_ <=? _) eqn:E; [|reflexivity]. apply Z.leb_le in E.
  rewrite <- Hc by lia. reflexivity.
Qed.

Lemma print_sections_same_inside newpfx b1 b2 :
  wf_blob b1 -> same_inside b1 b2 ->
  forall n fuel off rem k off_end,
    0 <= off -> u32_range rem ->
    off + rem = data_length (estatus b1) ->
    advance b1 n off rem = Some (off_end, 0) ->
    print_sections fuel newpfx b1 rem off k =
    print_sections fuel newpfx b2 rem off k.
Proof.
  intros Hb Hsame. pose proof sz_range as Hsz.
  induction n as [|n IH]; intros fuel off rem k off_end Ho Hr Hsum Ha.
  - cbn in Ha. inversion Ha; subst.
    destruct fuel; cbn [print_sections];
      replace (sz <=? 0) with false by (symmetry; apply Z.leb_gt; lia);
      reflexivity.
  - cbn [advance] in Ha.
    destruct (_ <=? rem) eqn:E; [|discriminate]. apply Z.leb_le in E.
    assert (Hl := proj2 Hb off). unfold u32_range in Hl, Hr.
    destruct fuel as [|fuel]; cbn [print_sections];
      replace (sz <=? rem) with true by (symmetry; apply Z.leb_le; lia);
      [reflexivity|].
    rewrite <- (print_section_same_inside newpfx b1 b2) by (auto; lia).
    assert (Hg : gdata_at b1 off = gdata_at b2 off)
      by (apply Hsame; lia).
    rewrite <- Hg.
    rewrite (to_uint_small (error_data_length _)) by exact Hl.
    rewrite to_size_t_small by lia.
    rewrite to_uint_small by (unfold u32_range; lia).
    replace (rem - (error_data_length (gdata_at b1 off) + sz))
      with (rem - (sz + error_data_length (gdata_at b1 off))) by lia.
    rewrite (IH fuel _ _ (k + 1) off_end); auto; try lia.
    unfold u32_range; lia.
Qed.



(** X9.  On a block that cper_estatus_check accepts, cper_estatus_print
    reads nothing outside the block: the report is the same for any two
    blocks that have the same header and hold the same descriptors and
    payloads inside the [data_length] bytes. *)
Theorem cper_estatus_print_reads_inside (b1 b2 : cper_blob)
    (fuel_check fuel : nat) (pfx : string) :
  wf_blob b1 ->
  cper_estatus_check fuel_check b1 = Some 0 ->
  same_inside b1 b2 ->
  cper_estatus_print fuel pfx b1 = cper_estatus_print fuel pfx b2.
Proof.
  intros Hb Hc Hsame.
  destruct (check_accepts_exhausts b1 fuel_check Hb Hc) as (n & off & Ha).
  assert (Hd : u32_range (data_length (estatus b1))) by apply Hb.
  unfold cper_estatus_print. cbv zeta.
  destruct Hsame as [He Hin]. rewrite <- He.
  rewrite (to_uint_small _ Hd).
  rewrite (print_sections_same_inside _ b1 b2 Hb (conj He Hin)
             n fuel 0 _ 0 off); auto; lia.
Qed.

(** X10.  cper_estatus_print does not validate.  When the first descriptor
    declares more payload than the block holds, so that cper_estatus_check
    would stop at it, the subtraction wraps around: if the wrapped count still
    covers one header, every report that the function completes contains the
    report of a second section whose descriptor was read at offset
    [sizeof( *gdata) + gedata_len], behind the end of the block's data. *)
Theorem cper_estatus_print_unchecked (pfx : string) (b : cper_blob) :
  wf_blob b ->
  let dl := data_length (estatus b) in
  let l := error_data_length (gdata_at b 0) in
  let newpfx := fst (snprintf 64 (pfx ++ INDENT_SP)) in
  sizeof_acpi_generic_data <= dl ->
  dl - sizeof_acpi_generic_data < l ->
  l + 2 * sizeof_acpi_generic_data <= dl + 2 ^ 32 ->
  dl < sizeof_acpi_generic_data + l /\
  forall fuel out,
    cper_estatus_print fuel pfx b = Some out ->
    exists rest,
      out = (status_header pfx (estatus b) ++
             cper_estatus_print_section newpfx b 0 0 ++
             cper_estatus_print_section newpfx b
               (sizeof_acpi_generic_data + l) 1 ++
             rest)%list.
Proof.
  intros Hb dl l newpfx Hge Hover Hwrap. pose proof sz_range as Hsz.
  assert (Hd : u32_range dl) by apply Hb.
  assert (Hl : u32_range l) by apply Hb.
  unfold u32_range in Hd, Hl.
  split; [lia|].
  intros fuel out Hout. unfold cper_estatus_print in Hout. cbv zeta in Hout.
  fold dl newpfx in Hout. rewrite (to_uint_small dl) in Hout by exact Hd.
  destruct fuel as [|fuel]; cbn [print_sections] in Hout.
  { replace (sz <=? dl) with true in Hout
      by (symmetry; apply Z.leb_le; lia). discriminate. }
  replace (sz <=? dl) with true in Hout by (symmetry; apply Z.leb_le; lia).
  fold l in Hout. rewrite (to_uint_small l) in Hout by exact Hl.
  rewrite to_size_t_small in Hout by lia.
  assert (Hw : to_uint (dl - (l + sz)) = dl + 2 ^ 32 - (l + sz)).
  { unfold to_uint. rewrite <- (Z.mod_add _ 1) by lia.
    rewrite Z.mod_small by lia. lia. }
  rewrite Hw in Hout.
  destruct fuel as [|fuel]; cbn [print_sections] in Hout.
  { replace (sz <=? dl + 2 ^ 32 - (l + sz)) with true in Hout
      by (symmetry; apply Z.leb_le; lia). discriminate. }
  replace (sz <=? dl + 2 ^ 32 - (l + sz)) with true in Hout
    by (symmetry; apply Z.leb_le; lia).
  replace (0 + sz + l) with (sz + l) in Hout by lia.
  destruct (print_sections fuel _ _ _ _ _) as [rest|]; [|discriminate].
  exists rest. change (0 + 1) with 1 in Hout.
  apply (f_equal (fun o => match o with Some x => x | None => [] end)) in Hout.
  now subst out.
Qed.

End ReportTheorems.

(** ** Section numbers and indentation *)

Section LayoutTheorems.
Context {H : cper_h}.

Local Abbreviation sz := sizeof_acpi_generic_data.

Lemma section_numbers_app out1 out2 :
  section_numbers (out1 ++ out2) =
  (section_numbers out1 ++ section_numbers out2)%list.
Proof. apply flat_map_app. Qed.

Lemma section_numbers_bits pfx bits strs :
  section_numbers (cper_print_bits pfx bits strs) = [].
Proof.
  pose proof (cper_print_bits_lines pfx bits strs) as Hl.
  induction Hl as [|c out [line ->] _ IH]; [reflexivity|].
  change (section_numbers out = []). exact IH.
Qed.

Ltac no_section_number :=
  cbv zeta; cbn [when];
  rewrite ?section_numbers_app, ?section_numbers_bits; reflexivity.

Lemma section_numbers_proc pfx p :
  section_numbers (cper_print_proc_generic pfx p) = [].
Proof.
  assert (Hs : forall f, section_numbers (proc_stmt pfx p f) = [])
    by (intros f; destruct f; cbn [proc_stmt]; destruct (bits_set _ _);
        no_section_number).
  unfold cper_print_proc_generic.
  rewrite !section_numbers_app, !Hs. reflexivity.
Qed.

Lemma section_numbers_mem pfx m :
  section_numbers (cper_print_mem pfx m) = [].
Proof.
  assert (Hs : forall f, section_numbers (mem_stmt pfx m f) = [])
    by (intros f; destruct f; cbn [mem_stmt]; destruct (bits_set _ _);
        try (destruct (dmi_memdev_name _) as [[?|] [?|]]);
        no_section_number).
  unfold cper_print_mem.
  rewrite !section_numbers_app, !Hs. reflexivity.
Qed.

Lemma section_numbers_pcie pfx c gdata :
  section_numbers (cper_print_pcie pfx c gdata) = [].
Proof.
  assert (Hs : forall f, section_numbers (pcie_stmt pfx c gdata f) = [])
    by (intros f; destruct f; cbn [pcie_stmt]; destruct (bits_set _ _);
        try destruct (bits_set _ _); cbn [andb]; no_section_number).
  unfold cper_print_pcie.
  rewrite !section_numbers_app, !Hs. reflexivity.
Qed.

Lemma section_numbers_section pfx b off k :
  section_numbers (cper_estatus_print_section pfx b off k) = [k].
Proof.
  unfold cper_estatus_print_section. cbv zeta.
  rewrite section_numbers_app.
  assert (Hh : section_numbers (section_header pfx (gdata_at b off) k) = [k])
    by (unfold section_header; destruct (bits_set _ _), (bits_set _ _);
        reflexivity).
  rewrite Hh.
  repeat match goal with
  | |- context [if ?c then _ else _] => destruct c
  end;
  rewrite ?section_numbers_app, ?section_numbers_proc, ?section_numbers_mem,
    ?section_numbers_pcie; reflexivity.
Qed.

Lemma section_numbers_reports pfx b n :
  forall off k,
    section_numbers (section_reports pfx b n off k) =
    map (fun i => k + Z.of_nat i) (List.seq 0 n).
Proof.
  induction n as [|n IH]; intros off k; [reflexivity|].
  cbn [section_reports]. rewrite section_numbers_app, section_numbers_section.
  rewrite IH. cbn [List.seq map app]. rewrite Z.add_0_r. f_equal.
  rewrite <- seq_shift, map_map. apply map_ext.
  intros i. rewrite Nat2Z.inj_succ. lia.
Qed.

(** The loop stops short when it has fewer turns than there are sections. *)
Lemma print_sections_short newpfx b :
  wf_blob b ->
  forall n fuel off rem k off_end,
    u32_range rem ->
    advance b n off rem = Some (off_end, 0) ->
    (fuel < n)%nat ->
    print_sections fuel newpfx b rem off k = None.
Proof.
  intros Hb. pose proof sz_range as Hsz.
  induction n as [|n IH]; intros fuel off rem k off_end Hr Ha Hf; [lia|].
  cbn [advance] in Ha.
  destruct (_ <=? rem) eqn:E; [|discriminate]. apply Z.leb_le in E.
  assert (Hl := proj2 Hb off). unfold u32_range in Hl, Hr.
  destruct fuel as [|fuel]; cbn [print_sections];
    replace (sz <=? rem) with true by (symmetry; apply Z.leb_le; lia);
    [reflexivity|].
  rewrite (to_uint_small (error_data_length _)) by exact Hl.
  rewrite to_size_t_small by lia.
  rewrite to_uint_small by (unfold u32_range; lia).
  replace (rem - (error_data_length (gdata_at b off) + sz))
    with (rem - (sz + error_data_length (gdata_at b off))) by lia.
  rewrite (IH fuel _ _ (k + 1) off_end); auto; try lia.
  unfold u32_range; lia.
Qed.

(** X11.  For a block of [n] sections that cper_estatus_check accepts,
    cper_estatus_print needs exactly [n] turns of its loop, and the calls of
    its report that have the format of the first line of a section report
    carry the section numbers 0, 1, ..., [n - 1], in this order. *)
Theorem cper_estatus_print_section_numbers (b : cper_blob)
    (fuel_check : nat) (pfx : string) :
  wf_blob b ->
  cper_estatus_check fuel_check b = Some 0 ->
  exists n,
    advance b n 0 (data_length (estatus b)) =
      Some (data_length (estatus b), 0) /\
    (forall fuel, (fuel < n)%nat -> cper_estatus_print fuel pfx b = None) /\
    (forall fuel, (n <= fuel)%nat ->
       exists out,
         cper_estatus_print fuel pfx b = Some out /\
         section_numbers out = map Z.of_nat (List.seq 0 n)).
Proof.
  intros Hb Hc.
  destruct (check_accepts_exhausts b fuel_check Hb Hc) as (n & off & Ha).
  destruct (advance_sum b Hb _ _ _ _ _ Ha) as (Hs & _ & _).
  assert (off = data_length (estatus b)) by lia. subst off.
  assert (Hd : u32_range (data_length (estatus b))) by apply Hb.
  exists n. split; [assumption|]. split.
  - intros fuel Hf. unfold cper_estatus_print. cbv zeta.
    rewrite (to_uint_small _ Hd).
    now rewrite (print_sections_short _ b Hb n fuel 0 _ 0 _ Hd Ha Hf).
  - intros fuel Hf. unfold cper_estatus_print. cbv zeta.
    rewrite (to_uint_small _ Hd).
    rewrite (print_sections_reports _ b Hb n fuel 0 _ 0 _ Hd Ha Hf).
    eexists; split; [reflexivity|].
    rewrite section_numbers_app, section_numbers_reports.
    assert (Hh : section_numbers (status_header pfx (estatus b)) = [])
      by (unfold status_header; destruct (_ =? _); reflexivity).
    rewrite Hh. cbn [app]. apply map_ext. intros i. lia.
Qed.

Lemma bounded_line_starts q c :
  strlen q <= 83 -> bounded_line q c -> starts_with q c.
Proof.
  intros Hq (line & -> & _ & Hp) _. split; [reflexivity|].
  exists line, []. split; auto.
Qed.

Ltac starts_now :=
  intros _; split; [reflexivity|];
  eexists; eexists; split; [reflexivity|apply prefix_refl].

Lemma proc_starts q p :
  strlen q <= 83 -> Forall (starts_with q) (cper_print_proc_generic q p).
Proof.
  intros Hq.
  assert (Hs : forall f, Forall (starts_with q) (proc_stmt q p f)).
  { intros f; destruct f; cbn [proc_stmt]; destruct (bits_set _ _);
      cbn [when printk]; try apply Forall_nil;
      try (apply Forall_cons; [starts_now|]); try apply Forall_nil.
    all: apply (Forall_impl _ (fun c => bounded_line_starts q c Hq)),
           cper_print_bits_bounded. }
  unfold cper_print_proc_generic. repeat (apply Forall_app; split); apply Hs.
Qed.

Lemma mem_starts q m :
  Forall (starts_with q) (cper_print_mem q m).
Proof.
  assert (Hs : forall f, Forall (starts_with q) (mem_stmt q m f)).
  { intros f; destruct f; cbn [mem_stmt]; destruct (bits_set _ _);
      try (destruct (dmi_memdev_name _) as [[?|] [?|]]);
      cbn [when printk pr_debug]; try apply Forall_nil;
      (apply Forall_cons; [|apply Forall_nil]);
      first [starts_now | intros [=]]. }
  unfold cper_print_mem. repeat (apply Forall_app; split); apply Hs.
Qed.

Lemma pcie_starts q c gdata :
  Forall (starts_with q) (cper_print_pcie q c gdata).
Proof.
  assert (Hs : forall f, Forall (starts_with q) (pcie_stmt q c gdata f)).
  { intros f; destruct f; cbn [pcie_stmt]; destruct (bits_set _ _);
      try destruct (bits_set _ _); cbn [andb when printk app];
      repeat (apply Forall_cons; [starts_now|]); apply Forall_nil. }
  unfold cper_print_pcie. repeat (apply Forall_app; split); apply Hs.
Qed.

Lemma section_indented pfx b off k :
  strlen pfx <= 61 ->
  Forall (indented_call pfx)
    (cper_estatus_print_section (pfx ++ INDENT_SP) b off k).
Proof.
  intros Hp.
  assert (Hnew : fst (snprintf 64 ((pfx ++ INDENT_SP) ++ INDENT_SP)) =
                 pfx ++ INDENT_SP ++ INDENT_SP).
  { rewrite snprintf_fits.
    - apply append_assoc.
    - rewrite !strlen_append. change (strlen INDENT_SP) with 1. lia. }
  assert (Hq : strlen (pfx ++ INDENT_SP ++ INDENT_SP) <= 83).
  { rewrite !strlen_append. change (strlen INDENT_SP) with 1. lia. }
  assert (Hdeep : forall out,
            Forall (starts_with (pfx ++ INDENT_SP ++ INDENT_SP)) out ->
            Forall (indented_call pfx) out).
  { intros out. apply Forall_impl. intros c Hc Hlvl.
    destruct (Hc Hlvl) as (Hk & text & rest & Ha & Hpre).
    exists text, rest. rewrite Hk. auto. }
  unfold cper_estatus_print_section. cbv zeta. rewrite Hnew.
  apply Forall_app; split.
  - unfold section_header. repeat (apply Forall_app; split);
      try (destruct (bits_set _ _); cbn [when]);
      try apply Forall_nil;
      (apply Forall_cons; [|apply Forall_nil]);
      intros _; eexists; eexists; (split; [reflexivity|]); reflexivity.
  - repeat match goal with
    | |- context [if ?c then _ else _] => destruct c
    end;
    try (apply Forall_cons;
         [intros _; eexists; eexists; (split; [reflexivity|]);
          apply prefix_refl|]);
    try apply Forall_nil;
    try (apply Hdeep;
         first [now apply proc_starts | apply mem_starts | apply pcie_starts]).
    all: apply Forall_cons; [intros [=]|apply Forall_nil].
Qed.

(** X12.  With a prefix of at most 61 characters, the format of a line that
    cper_estatus_print prints at the default level decides where the line
    starts: the two lines about the status block have the caller's prefix as
    their first argument, the first lines of a section report (number and
    severity, FRU id, FRU text) the prefix and one blank, and every other
    line (section type, decoder fields, flag names) a text that starts with
    the prefix and two blanks. *)
Theorem cper_estatus_print_indentation (fuel : nat) (pfx : string)
    (b : cper_blob) (out : list printk_call) :
  strlen pfx <= 61 ->
  cper_estatus_print fuel pfx b = Some out ->
  Forall (indented_call pfx) out.
Proof.
  intros Hp Hout. unfold cper_estatus_print in Hout. cbv zeta in Hout.
  assert (Hnew : fst (snprintf 64 (pfx ++ INDENT_SP)) = pfx ++ INDENT_SP).
  { rewrite snprintf_fits; [reflexivity|].
    rewrite strlen_append. change (strlen INDENT_SP) with 1. lia. }
  rewrite Hnew in Hout.
  assert (Hloop : forall fuel rem off k rest,
            print_sections fuel (pfx ++ INDENT_SP) b rem off k = Some rest ->
            Forall (indented_call pfx) rest).
  { clear fuel Hout. induction fuel as [|fuel IH]; intros rem off k rest Hr;
      cbn [print_sections] in Hr.
    - destruct (_ <=? rem); [discriminate|]. inversion Hr. constructor.
    - destruct (_ <=? rem); [|inversion Hr; constructor].
      destruct (print_sections fuel _ _ _ _ _) as [rest'|] eqn:E;
        [|discriminate].
      apply (f_equal (fun o => match o with Some x => x | None => [] end))
        in Hr. subst rest.
      apply Forall_app; split; [now apply section_indented|].
      eapply IH; eassumption. }
  destruct (print_sections fuel _ _ _ _ _) as [rest|] eqn:E; [|discriminate].
  apply (f_equal (fun o => match o with Some x => x | None => [] end)) in Hout.
  subst out. apply Forall_app; split; [|eapply Hloop; eassumption].
  unfold status_header. apply Forall_app; split.
  - destruct (_ =? _); cbn [when]; [|constructor].
    apply Forall_cons; [|constructor].
    intros _; eexists; eexists; (split; [reflexivity|]); reflexivity.
  - apply Forall_cons; [|constructor].
    intros _; eexists; eexists; (split; [reflexivity|]); reflexivity.
Qed.

(** X13.  The severity shown on the first line of a section report is taken
    from the low 16 bits of the descriptor's [error_severity]: the name is
    one of the four of the table when that value is below 4 and [unknown]
    otherwise, and the lookup never leaves the table. *)
Theorem section_header_severity (pfx : string) (g : acpi_generic_data)
    (k : Z) :
  let s := error_severity g mod 2 ^ 16 in
  exists name rest,
    section_header pfx g k =
      {| lvl := KERN_DEFAULT; fmt := error_line_format;
         args := [AStr pfx; AInt k; AStr name] |} :: rest /\
    In name ("unknown" :: cper_severity_strs) /\
    (name = "unknown" <-> 4 <= s) /\
    (s < 4 -> nth_error cper_severity_strs (Z.to_nat s) = Some name).
Proof.
  intros s. unfold section_header. cbv zeta.
  fold (to_u16 (error_severity g)).
  change (to_u16 (error_severity g)) with s.
  eexists; eexists; split; [reflexivity|].
  assert (Hs : 0 <= s < 2 ^ 16) by (apply Z.mod_pos_bound; lia).
  unfold cper_severity_str, str_or_unknown.
  change (ARRAY_SIZE cper_severity_strs) with 4.
  destruct (s <? 4) eqn:E.
  - apply Z.ltb_lt in E.
    assert (Hc : s = 0 \/ s = 1 \/ s = 2 \/ s = 3) by lia.
    destruct Hc as [-> | [-> | [-> | ->]]]; cbn;
      (split; [tauto|]); (split; [|reflexivity]);
      (split; [discriminate|lia]).
  - apply Z.ltb_ge in E. split; [now left|]. split; [tauto|lia].
Qed.







(** X15.  The loop of cper_estatus_print has no bound of its own.  On a
    block whose descriptors all declare [2^31 - sizeof( *gdata)] bytes of
    payload and whose [data_length] is at least [2^31 + sizeof( *gdata)], the
    remaining count alternates between two values that both cover a header,
    and no number of turns ends the loop. *)
Theorem cper_estatus_print_endless (fuel : nat) (pfx : string)
    (b : cper_blob) :
  wf_blob b ->
  (forall off,
     error_data_length (gdata_at b off) =
     2 ^ 31 - sizeof_acpi_generic_data) ->
  2 ^ 31 + sizeof_acpi_generic_data <= data_length (estatus b) ->
  cper_estatus_print fuel pfx b = None.
Proof.
  intros Hb Hlen Hdl. pose proof sz_range as Hsz.
  assert (Hd : u32_range (data_length (estatus b))) by apply Hb.
  assert (Hl0 := proj2 Hb 0). rewrite Hlen in Hl0.
  unfold u32_range in Hd, Hl0.
  set (dl := data_length (estatus b)) in *.
  assert (Hloop : forall fuel newpfx rem off k,
            rem = dl \/ rem = dl - 2 ^ 31 ->
            print_sections fuel newpfx b rem off k = None).
  { clear fuel. induction fuel as [|fuel IH]; intros newpfx rem off k Hrem;
      cbn [print_sections];
      replace (sz <=? rem) with true by (symmetry; apply Z.leb_le; lia);
      [reflexivity|].
    rewrite Hlen. rewrite (to_uint_small (2 ^ 31 - sz))
      by (unfold u32_range; lia).
    rewrite to_size_t_small by lia.
    replace (2 ^ 31 - sz + sz) with (2 ^ 31) by lia.
    rewrite IH; [reflexivity|].
    destruct Hrem as [-> | ->].
    - right. apply to_uint_small. unfold u32_range. lia.
    - left. unfold to_uint. rewrite <- (Z.mod_add _ 1) by lia.
      rewrite Z.mod_small by lia. lia. }
  unfold cper_estatus_print. cbv zeta. fold dl.
  rewrite (to_uint_small dl) by exact Hd.
  rewrite Hloop; [reflexivity|now left].
Qed.

End LayoutTheorems.

(** * Further properties of cper_next_record_id *)

(** The value that atomic64_set stores when the counter is seeded. *)
Lemma seed_value now :
  atomic64_set (Z.shiftl (to_u64 now) 32) = (now * 2 ^ 32) mod 2 ^ 64.
Proof.
  unfold atomic64_set, to_u64. rewrite Z.shiftl_mul_pow2 by lia.
  apply Z.mul_mod_idemp_l. lia.
Qed.

(** Once the counter is not zero, calls count upwards whatever the clock
    reads. *)
Lemma next_record_ids_from clock :
  forall s0,
    0 < s0 -> s0 + Z.of_nat (List.length clock) < 2 ^ 64 ->
    next_record_ids clock s0 =
      map (fun k => s0 + 1 + Z.of_nat k) (List.seq 0 (List.length clock)).
Proof.
  induction clock as [|now clock IH]; intros s0 Hpos Hmax; [reflexivity|].
  cbn [next_record_ids List.length] in *.
  rewrite Nat2Z.inj_succ in Hmax.
  rewrite cper_next_record_id_sequential by lia.
  rewrite IH by lia. cbn [List.seq map]. rewrite Z.add_0_r. f_equal.
  rewrite <- seq_shift, map_map. apply map_ext.
  intros k. rewrite Nat2Z.inj_succ. lia.
Qed.

Lemma next_record_ids_boot now clock :
  0 < now < 2 ^ 32 ->
  now * 2 ^ 32 + Z.of_nat (S (List.length clock)) < 2 ^ 64 ->
  next_record_ids (now :: clock) 0 =
    map (fun k => now * 2 ^ 32 + 1 + Z.of_nat k)
        (List.seq 0 (S (List.length clock))).
Proof.
  intros Hnow Hmax. rewrite Nat2Z.inj_succ in Hmax.
  cbn [next_record_ids]. unfold cper_next_record_id.
  cbn [atomic64_read Z.eqb]. rewrite first_id_of_second by assumption.
  rewrite next_record_ids_from by lia.
  cbn [List.seq map]. rewrite Z.add_0_r. f_equal.
  rewrite <- seq_shift, map_map. apply map_ext.
  intros k. rewrite Nat2Z.inj_succ. lia.
Qed.

(** X16.  Called one after the other from a fresh counter, first in the
    second [now], cper_next_record_id returns the consecutive identifiers
    [now * 2^32 + 1], [now * 2^32 + 2], ... whatever the clock reads at the
    later calls, as long as the counter stays below 2^64. *)
Theorem next_record_ids_consecutive (now : Z) (clock : list Z) :
  0 < now < 2 ^ 32 ->
  now * 2 ^ 32 + Z.of_nat (S (List.length clock)) < 2 ^ 64 ->
  next_record_ids (now :: clock) 0 =
    map (fun k => now * 2 ^ 32 + 1 + Z.of_nat k)
        (List.seq 0 (S (List.length clock))).
Proof. apply next_record_ids_boot. Qed.

(** X17.  Identifiers stay unique across a reboot: when a boot that started
    in the second [t1] has handed out at most [(t2 - t1) * 2^32] identifiers,
    every identifier of a later boot that starts in the second [t2] is larger
    than each of them. *)
Theorem next_record_ids_across_boots (t1 t2 : Z) (clock1 clock2 : list Z)
    (id1 id2 : Z) :
  0 < t1 < t2 -> t2 < 2 ^ 32 ->
  Z.of_nat (S (List.length clock1)) <= (t2 - t1) * 2 ^ 32 ->
  t2 * 2 ^ 32 + Z.of_nat (S (List.length clock2)) < 2 ^ 64 ->
  In id1 (next_record_ids (t1 :: clock1) 0) ->
  In id2 (next_record_ids (t2 :: clock2) 0) ->
  id1 < id2.
Proof.
  intros Ht Ht2 Hn1 Hn2 H1 H2.
  rewrite next_record_ids_boot in H1 by nia.
  rewrite next_record_ids_boot in H2 by lia.
  apply in_map_iff in H1 as (k1 & <- & Hk1).
  apply in_map_iff in H2 as (k2 & <- & Hk2).
  apply in_seq in Hk1, Hk2. nia.
Qed.

(** X18.  The seed keeps the low 32 bits of the clock only: two clock
    readings that differ by a multiple of 2^32 seconds give the same
    identifier and counter, and a reading that is a multiple of 2^32 leaves a
    fresh counter unseeded, so that the first identifier is 1. *)
Theorem cper_next_record_id_clock_wrap (now k s0 : Z) :
  cper_next_record_id (now + k * 2 ^ 32) s0 = cper_next_record_id now s0 /\
  cper_next_record_id (k * 2 ^ 32) 0 = (1, 1).
Proof.
  assert (Hseed : forall t, atomic64_set (Z.shiftl (to_u64 (t + k * 2 ^ 32)) 32)
                            = atomic64_set (Z.shiftl (to_u64 t) 32)).
  { intros t. rewrite !seed_value.
    replace ((t + k * 2 ^ 32) * 2 ^ 32) with (t * 2 ^ 32 + k * 2 ^ 64) by lia.
    apply Z.mod_add. lia. }
  split.
  - unfold cper_next_record_id. now rewrite Hseed.
  - unfold cper_next_record_id. cbn [atomic64_read Z.eqb].
    specialize (Hseed 0). rewrite Z.add_0_l in Hseed. rewrite Hseed.
    reflexivity.
Qed.

(** * Examples *)

(** C4, on a failing input.  A PCIe section with the AER validation bit set
    and [error_severity] 3 (informational, not fatal): the test
    [error_severity & CPER_SEV_FATAL] is nonzero, and the three lines of the
    AER registers are printed. *)
Theorem cper_print_pcie_aer_informational :
  cper_print_pcie EmptyString (sample_pcie 0x80)
    (sample_gdata CPER_SEC_PCIE CPER_SEV_INFORMATIONAL 208) =
  [ {| lvl := KERN_DEFAULT;
       fmt := "%saer_uncor_status: 0x%08x, aer_uncor_mask: 0x%08x" ++ LF;
       args := [AStr EmptyString; AInt 0x4000; AInt 0] |};
    {| lvl := KERN_DEFAULT;
       fmt := "%saer_uncor_severity: 0x%08x" ++ LF;
       args := [AStr EmptyString; AInt 0x62030] |};
    {| lvl := KERN_DEFAULT;
       fmt := "%sTLP Header: %08x %08x %08x %08x" ++ LF;
       args := [AStr EmptyString; AInt 1; AInt 2; AInt 3; AInt 4] |} ].
Proof. vm_compute. reflexivity. Qed.



(** The test [!len] also takes a line that holds nothing but an empty prefix
    and an empty name for no line at all. *)
Lemma cper_print_bits_empty_name :
  cper_print_bits EmptyString 3 [Some EmptyString; Some "a"] = line_call "a" /\
  format_bits EmptyString 3 [Some EmptyString; Some "a"] = [", a"].
Proof. split; vm_compute; reflexivity. Qed.


(** The DIMM statement is the one printk of the file whose format has no
    newline at its end. *)
Lemma cper_print_mem_dimm_no_newline :
  cper_print_mem " " (sample_mem 0x20000) =
    printk "%sDIMM DMI handle: 0x%.4x" [AStr " "; AInt 0x1a] /\
  ends_with_LF "%sDIMM DMI handle: 0x%.4x" = false /\
  ends_with_LF "%sDIMM location: %s %s" = false.
Proof. repeat split; vm_compute; reflexivity. Qed.

(** ** The theorems at concrete inputs *)

Lemma one_mem_section_wf : wf_blob one_mem_section.
Proof.
  split; [repeat split; cbn; lia|].
  intros off. cbn. unfold u32_range. lia.
Defined.

Lemma cper_estatus_check_exhausts_witness :
  wf_blob one_mem_section /\
  cper_estatus_check_header (estatus one_mem_section) = 0 /\
  (Z.to_nat (data_length (estatus one_mem_section)) < 200)%nat /\
  (cper_estatus_check 200 one_mem_section = Some 0 <->
   exhausts one_mem_section).
Proof.
  assert (Hlt : (Z.to_nat (data_length (estatus one_mem_section)) < 200)%nat)
    by (cbn; lia).
  split; [exact one_mem_section_wf|].
  split; [reflexivity|].
  split; [exact Hlt|].
  exact (proj1 (cper_estatus_check_exhausts one_mem_section 200
                  one_mem_section_wf eq_refl Hlt)).
Defined.


Lemma cper_estatus_check_terminates_witness :
  wf_blob one_mem_section /\
  (forall fuel,
     (Z.to_nat (data_length (estatus one_mem_section)) < fuel)%nat ->
     exists rc, cper_estatus_check fuel one_mem_section = Some rc /\
                (rc = 0 \/ rc = - EINVAL)).
Proof.
  split; [exact one_mem_section_wf|].
  exact (proj2 (cper_estatus_check_terminates one_mem_section
                  one_mem_section_wf)).
Defined.



Lemma unset_validation_bit_hides_field_witness :
  let m1 := sample_mem 0x4002 in
  let m2 := {| mem_validation_bits := 0x4002; error_status := 0;
               physical_addr := 0x12345000;
               physical_addr_mask := 0xfffffffffffff000;
               node := 7; card := 0; module := 1; bank := 2; device := 0;
               row := 0; column := 0; bit_pos := 0; requestor_id := 0;
               responder_id := 0; target_id := 0; error_type := 2;
               rank := 0; mem_dev_handle := 0x1a |} in
  Z.land (mem_validation_bits m1) (mem_field_mask MEM_node) = 0 /\
  mem_differ_only_in MEM_node m1 m2 /\
  mem_stmt "  " m1 MEM_node = [] /\
  cper_print_mem "  " m1 = cper_print_mem "  " m2.
Proof.
  intros m1 m2.
  assert (Hd : mem_differ_only_in MEM_node m1 m2).
  { split; [reflexivity|].
    intros g Hg. destruct g; try reflexivity. now contradiction Hg. }
  split; [reflexivity|]. split; [exact Hd|].
  exact (proj1 (proj2 (unset_validation_bit_hides_field "  "))
           MEM_node m1 m2 eq_refl Hd).
Defined.



Lemma cper_print_mem_debug_fields_witness :
  In MEM_node mem_debug_fields /\
  exists fm,
    prefix "%s" fm = false /\
    mem_stmt "  " (sample_mem 0x8) MEM_node =
      when (bits_set (mem_validation_bits (sample_mem 0x8))
                     (mem_field_mask MEM_node))
           (pr_debug fm [AInt (mem_field_value MEM_node (sample_mem 0x8))]).
Proof.
  assert (Hin : In MEM_node mem_debug_fields) by (cbn; tauto).
  split; [exact Hin|].
  exact (proj1 (cper_print_mem_debug_fields "  " (sample_mem 0x8))
           MEM_node Hin).
Defined.

(** ** The further properties at concrete inputs *)

Lemma sample_blob_wf ty sev len dlen :
  u32_range sev -> u32_range len -> u32_range dlen ->
  wf_blob (sample_blob ty sev len dlen).
Proof.
  intros Hs Hl Hd. split; [|intros off; exact Hl].
  split; [|split]; [unfold u32_range; cbn; lia ..|exact Hd].
Qed.

Lemma overlong_section_wf : wf_blob overlong_section.
Proof. apply sample_blob_wf; split; (discriminate || reflexivity). Qed.

Lemma endless_sections_wf : wf_blob endless_sections.
Proof. apply sample_blob_wf; split; (discriminate || reflexivity). Qed.

Lemma one_mem_section_tail_same :
  same_inside one_mem_section one_mem_section_tail.
Proof.
  split; [reflexivity|].
  split.
  { intros off H0 H1. change (off + 64 <= 144) in H1.
    unfold one_mem_section_tail. cbn [gdata_at].
    destruct (Z.leb_spec off 80); [reflexivity|lia]. }
  split; [reflexivity|].
  split.
  { intros q H0 H1. change (q + 80 <= 144) in H1.
    unfold one_mem_section_tail. cbn [mem_err_at].
    destruct (Z.leb_spec q 64); [reflexivity|lia]. }
  intros q H0 H1. change (q + 208 <= 144) in H1. lia.
Qed.

Lemma one_mem_section_tail_lengths :
  same_lengths_inside one_mem_section one_mem_section_tail.
Proof.
  split; [reflexivity|].
  intros off H0 H1.
  now rewrite (proj1 (proj2 one_mem_section_tail_same) off H0 H1).
Qed.

Lemma cper_estatus_check_section_count_witness :
  wf_blob one_mem_section /\
  cper_estatus_check 200 one_mem_section = Some 0 /\
  exists n,
    advance one_mem_section n 0 (data_length (estatus one_mem_section)) =
      Some (data_length (estatus one_mem_section), 0) /\
    Z.of_nat n * sizeof_acpi_generic_data <=
      data_length (estatus one_mem_section) /\
    forall m off,
      advance one_mem_section m 0 (data_length (estatus one_mem_section)) =
        Some (off, 0) -> m = n.
Proof.
  split; [exact one_mem_section_wf|]. split; [reflexivity|].
  exact (cper_estatus_check_section_count one_mem_section 200
           one_mem_section_wf eq_refl).
Defined.

Lemma cper_estatus_check_reads_inside_witness :
  wf_blob one_mem_section /\
  same_lengths_inside one_mem_section one_mem_section_tail /\
  gdata_at one_mem_section 144 <> gdata_at one_mem_section_tail 144 /\
  cper_estatus_check 200 one_mem_section =
    cper_estatus_check 200 one_mem_section_tail.
Proof.
  split; [exact one_mem_section_wf|].
  split; [exact one_mem_section_tail_lengths|].
  split; [vm_compute; discriminate|].
  exact (cper_estatus_check_reads_inside one_mem_section
           one_mem_section_tail 200 one_mem_section_wf
           one_mem_section_tail_lengths).
Defined.

Lemma cper_estatus_check_turns_witness :
  wf_blob one_mem_section /\
  (Z.to_nat (data_length (estatus one_mem_section) /
             sizeof_acpi_generic_data) < 3)%nat /\
  exists rc, cper_estatus_check 3 one_mem_section = Some rc.
Proof.
  assert (Hlt : (Z.to_nat (data_length (estatus one_mem_section) /
                           sizeof_acpi_generic_data) < 3)%nat)
    by (vm_compute; lia).
  split; [exact one_mem_section_wf|]. split; [exact Hlt|].
  exact (cper_estatus_check_turns one_mem_section 3 one_mem_section_wf Hlt).
Defined.

Lemma cper_print_bits_buffer_witness :
  (List.length (map Some cper_proc_error_type_strs) <= 32)%nat /\
  Forall (bounded_line prefix60)
    (cper_print_bits prefix60 8 (map Some cper_proc_error_type_strs)).
Proof.
  assert (Hl : (List.length (map Some cper_proc_error_type_strs) <= 32)%nat)
    by (cbn; lia).
  split; [exact Hl|].
  exact (cper_print_bits_buffer prefix60 8
           (map Some cper_proc_error_type_strs) Hl).
Defined.

Lemma cper_print_bits_named_bits_witness :
  (List.length (map Some cper_proc_flag_strs) <= 32)%nat /\
  (forall i name,
     nth_error (map Some cper_proc_flag_strs) i = Some (Some name) ->
     Z.testbit 9 (Z.of_nat i) = Z.testbit (9 + 16 + 2 ^ 40) (Z.of_nat i)) /\
  cper_print_bits "  " 9 (map Some cper_proc_flag_strs) =
    cper_print_bits "  " (9 + 16 + 2 ^ 40) (map Some cper_proc_flag_strs).
Proof.
  assert (Hl : (List.length (map Some cper_proc_flag_strs) <= 32)%nat)
    by (cbn; lia).
  assert (Hb : forall i name,
             nth_error (map Some cper_proc_flag_strs) i = Some (Some name) ->
             Z.testbit 9 (Z.of_nat i) =
             Z.testbit (9 + 16 + 2 ^ 40) (Z.of_nat i)).
  { intros i name Hi.
    destruct i as [|[|[|[|i]]]]; try reflexivity.
    destruct i; discriminate Hi. }
  split; [exact Hl|]. split; [exact Hb|].
  exact (cper_print_bits_named_bits "  " 9 (9 + 16 + 2 ^ 40)
           (map Some cper_proc_flag_strs) Hl Hb).
Defined.

Lemma cper_print_bits_line_count_witness :
  (List.length (map Some cper_proc_flag_strs) <= 32)%nat /\
  (List.length (cper_print_bits "  " 9 (map Some cper_proc_flag_strs)) <=
   List.length (selected_names 9 0 (map Some cper_proc_flag_strs)))%nat /\
  (selected_names 9 0 (map Some cper_proc_flag_strs) = [] ->
   cper_print_bits "  " 9 (map Some cper_proc_flag_strs) = []).
Proof.
  assert (Hl : (List.length (map Some cper_proc_flag_strs) <= 32)%nat)
    by (cbn; lia).
  split; [exact Hl|].
  exact (cper_print_bits_line_count "  " 9
           (map Some cper_proc_flag_strs) Hl).
Defined.

Lemma cper_estatus_print_reads_inside_witness :
  wf_blob one_mem_section /\
  cper_estatus_check 200 one_mem_section = Some 0 /\
  same_inside one_mem_section one_mem_section_tail /\
  cper_estatus_print 200 "[Hardware Error]: " one_mem_section =
    cper_estatus_print 200 "[Hardware Error]: " one_mem_section_tail.
Proof.
  split; [exact one_mem_section_wf|]. split; [reflexivity|].
  split; [exact one_mem_section_tail_same|].
  exact (cper_estatus_print_reads_inside one_mem_section
           one_mem_section_tail 200 200 "[Hardware Error]: "
           one_mem_section_wf eq_refl one_mem_section_tail_same).
Defined.

Lemma cper_estatus_print_unchecked_witness :
  let b := overlong_section in
  let dl := data_length (estatus b) in
  let l := error_data_length (gdata_at b 0) in
  let newpfx := fst (snprintf 64 (" " ++ INDENT_SP)) in
  wf_blob b /\
  sizeof_acpi_generic_data <= dl /\
  dl - sizeof_acpi_generic_data < l /\
  l + 2 * sizeof_acpi_generic_data <= dl + 2 ^ 32 /\
  (exists out, cper_estatus_print 2 " " b = Some out) /\
  dl < sizeof_acpi_generic_data + l /\
  forall fuel out,
    cper_estatus_print fuel " " b = Some out ->
    exists rest,
      out = (status_header " " (estatus b) ++
             cper_estatus_print_section newpfx b 0 0 ++
             cper_estatus_print_section newpfx b
               (sizeof_acpi_generic_data + l) 1 ++
             rest)%list.
Proof.
  intros b dl l newpfx.
  assert (H1 : sizeof_acpi_generic_data <= dl) by (vm_compute; discriminate).
  assert (H2 : dl - sizeof_acpi_generic_data < l) by reflexivity.
  assert (H3 : l + 2 * sizeof_acpi_generic_data <= dl + 2 ^ 32)
    by (vm_compute; discriminate).
  split; [exact overlong_section_wf|].
  split; [exact H1|]. split; [exact H2|]. split; [exact H3|].
  split; [eexists; vm_compute; reflexivity|].
  exact (cper_estatus_print_unchecked " " b overlong_section_wf H1 H2 H3).
Defined.

Lemma cper_estatus_print_section_numbers_witness :
  wf_blob one_mem_section /\
  cper_estatus_check 200 one_mem_section = Some 0 /\
  exists n,
    advance one_mem_section n 0 (data_length (estatus one_mem_section)) =
      Some (data_length (estatus one_mem_section), 0) /\
    (forall fuel, (fuel < n)%nat ->
       cper_estatus_print fuel "[Hardware Error]: " one_mem_section = None) /\
    (forall fuel, (n <= fuel)%nat ->
       exists out,
         cper_estatus_print fuel "[Hardware Error]: " one_mem_section =
           Some out /\
         section_numbers out = map Z.of_nat (List.seq 0 n)).
Proof.
  split; [exact one_mem_section_wf|]. split; [reflexivity|].
  exact (cper_estatus_print_section_numbers one_mem_section 200
           "[Hardware Error]: " one_mem_section_wf eq_refl).
Defined.

Lemma cper_estatus_print_indentation_witness :
  strlen "[Hardware Error]: " <= 61 /\
  exists out,
    cper_estatus_print 200 "[Hardware Error]: " one_mem_section = Some out /\
    out <> [] /\
    Forall (indented_call "[Hardware Error]: ") out.
Proof.
  assert (Hp : strlen "[Hardware Error]: " <= 61)
    by (vm_compute; discriminate).
  split; [exact Hp|].
  eexists. split; [vm_compute; reflexivity|].
  split; [discriminate|].
  apply (cper_estatus_print_indentation 200 "[Hardware Error]: "
           one_mem_section _ Hp).
  vm_compute. reflexivity.
Defined.

Lemma cper_estatus_print_endless_witness :
  wf_blob endless_sections /\
  (forall off,
     error_data_length (gdata_at endless_sections off) =
     2 ^ 31 - sizeof_acpi_generic_data) /\
  2 ^ 31 + sizeof_acpi_generic_data <= data_length (estatus endless_sections) /\
  cper_estatus_print 1000 "[Hardware Error]: " endless_sections = None.
Proof.
  assert (Hl : forall off,
             error_data_length (gdata_at endless_sections off) =
             2 ^ 31 - sizeof_acpi_generic_data) by (intros off; reflexivity).
  assert (Hd : 2 ^ 31 + sizeof_acpi_generic_data <=
               data_length (estatus endless_sections))
    by (vm_compute; discriminate).
  split; [exact endless_sections_wf|]. split; [exact Hl|]. split; [exact Hd|].
  exact (cper_estatus_print_endless 1000 "[Hardware Error]: "
           endless_sections endless_sections_wf Hl Hd).
Defined.

Lemma next_record_ids_consecutive_witness :
  0 < 1400000000 < 2 ^ 32 /\
  1400000000 * 2 ^ 32 +
    Z.of_nat (S (List.length [1400000007; 1399999999])) < 2 ^ 64 /\
  next_record_ids [1400000000; 1400000007; 1399999999] 0 =
    map (fun k => 1400000000 * 2 ^ 32 + 1 + Z.of_nat k)
        (List.seq 0 (S (List.length [1400000007; 1399999999]))).
Proof.
  assert (Hn : 0 < 1400000000 < 2 ^ 32) by (split; reflexivity).
  assert (Hc : 1400000000 * 2 ^ 32 +
               Z.of_nat (S (List.length [1400000007; 1399999999])) < 2 ^ 64)
    by reflexivity.
  split; [exact Hn|]. split; [exact Hc|].
  exact (next_record_ids_consecutive 1400000000
           [1400000007; 1399999999] Hn Hc).
Defined.

Lemma next_record_ids_across_boots_witness :
  let t1 := 1400000000 in
  let t2 := 1400000100 in
  let id1 := t1 * 2 ^ 32 + 2 in
  let id2 := t2 * 2 ^ 32 + 1 in
  0 < t1 < t2 /\ t2 < 2 ^ 32 /\
  Z.of_nat (S (List.length [t1])) <= (t2 - t1) * 2 ^ 32 /\
  t2 * 2 ^ 32 + Z.of_nat (S (List.length (@nil Z))) < 2 ^ 64 /\
  In id1 (next_record_ids [t1; t1] 0) /\
  In id2 (next_record_ids [t2] 0) /\
  id1 < id2.
Proof.
  intros t1 t2 id1 id2.
  assert (H1 : 0 < t1 < t2) by (split; reflexivity).
  assert (H2 : t2 < 2 ^ 32) by reflexivity.
  assert (H3 : Z.of_nat (S (List.length [t1])) <= (t2 - t1) * 2 ^ 32)
    by (vm_compute; discriminate).
  assert (H4 : t2 * 2 ^ 32 + Z.of_nat (S (List.length (@nil Z))) < 2 ^ 64)
    by reflexivity.
  assert (H5 : In id1 (next_record_ids [t1; t1] 0))
    by (right; left; reflexivity).
  assert (H6 : In id2 (next_record_ids [t2] 0)) by (left; reflexivity).
  split; [exact H1|]. split; [exact H2|]. split; [exact H3|].
  split; [exact H4|]. split; [exact H5|]. split; [exact H6|].
  exact (next_record_ids_across_boots t1 t2 [t1] [] id1 id2
           H1 H2 H3 H4 H5 H6).
Defined.

